(** * csv-to-formated-text: the CSV tokenizer and record extractor of src/App.jsx

    A shallow embedding of [parseCSV], [parseCSVLine], [formatOutput] and of
    the [reader.onload] handler that calls them, with the properties the
    specification states about them.

    JavaScript strings are sequences of code units.  This development takes
    the code units below 256 (the Latin-1 range), so that a string is a
    [list ascii]; on that range [String.prototype.toLowerCase] acts code unit
    by code unit and [String.prototype.trim] removes the code units 9-13, 32
    and 160. *)

From Stdlib Require Import List Ascii String Bool Arith ZArith Lia.
Import ListNotations.

Open Scope Z_scope.
Open Scope list_scope.

(** ** Strings *)

Definition jsstring := list ascii.

(** A Rocq literal as a JavaScript string. *)
Definition str (s : string) : jsstring := list_ascii_of_string s.

Definition LF : ascii := "010"%char.
Definition comma : ascii := ","%char.
Definition dquote : ascii := "034"%char.
Definition at_sign : ascii := "@"%char.

Fixpoint str_eqb (a b : jsstring) : bool :=
  match a, b with
  | [], [] => true
  | x :: a', y :: b' => Ascii.eqb x y && str_eqb a' b'
  | _, _ => false
  end.

(** WhiteSpace and LineTerminator code units below 256: TAB, LF, VT, FF, CR,
    SP and NBSP. *)
Definition isWhiteSpace (c : ascii) : bool :=
  let n := N_of_ascii c in
  (((9 <=? n) && (n <=? 13)) || (n =? 32) || (n =? 160))%N.

Fixpoint trimStart (s : jsstring) : jsstring :=
  match s with
  | [] => []
  | c :: s' => if isWhiteSpace c then trimStart s' else s
  end.

Fixpoint trimEnd (s : jsstring) : jsstring :=
  match s with
  | [] => []
  | c :: s' =>
      match trimEnd s' with
      | [] => if isWhiteSpace c then [] else [c]
      | t => c :: t
      end
  end.

(** [s.trim()] *)
Definition trim (s : jsstring) : jsstring := trimEnd (trimStart s).

(** Lower case of one code unit of the Latin-1 range: A-Z and the accented
    capitals 192-222 (215, the multiplication sign, apart) move up by 32. *)
Definition toLowerChar (c : ascii) : ascii :=
  let n := N_of_ascii c in
  (if ((65 <=? n) && (n <=? 90)) || ((192 <=? n) && (n <=? 222) && negb (n =? 215))
   then ascii_of_N (n + 32)
   else c)%N.

(** [s.toLowerCase()] *)
Definition toLowerCase (s : jsstring) : jsstring := map toLowerChar s.

(** [s.split(sep)] for a separator of one code unit: never an empty array. *)
Fixpoint split (sep : ascii) (s : jsstring) : list jsstring :=
  match s with
  | [] => [[]]
  | c :: s' =>
      let ls := split sep s' in
      if Ascii.eqb c sep then [] :: ls else (c :: hd [] ls) :: tl ls
  end.

(** [s.replace(/QUOTE/g, '')]: every double-quote code unit is removed. *)
Definition removeQuotes (s : jsstring) : jsstring :=
  filter (fun c => negb (Ascii.eqb c dquote)) s.

(** [arr.join(sep)] *)
Fixpoint join (sep : jsstring) (arr : list jsstring) : jsstring :=
  match arr with
  | [] => []
  | [a] => a
  | a :: rest => a ++ sep ++ join sep rest
  end.

(** [arr.findIndex(p)]: the first index whose element satisfies [p], or -1. *)
Fixpoint findIndex {A : Type} (p : A -> bool) (arr : list A) : Z :=
  match arr with
  | [] => -1
  | x :: rest =>
      if p x then 0
      else let i := findIndex p rest in if i =? -1 then -1 else i + 1
  end.

(** [s.includes(t)] *)
Fixpoint startsWith (t s : jsstring) : bool :=
  match t, s with
  | [], _ => true
  | x :: t', y :: s' => Ascii.eqb x y && startsWith t' s'
  | _ :: _, [] => false
  end.

Fixpoint includes (s t : jsstring) : bool :=
  startsWith t s ||
  match s with
  | [] => false
  | _ :: s' => includes s' t
  end.

(** ** The line tokenizer: [parseCSVLine] *)

(** The three locals of [parseCSVLine]. *)
Record tok_state : Type := mkTok {
  result : list jsstring;
  current : jsstring;
  inQuotes : bool
}.

Definition tok_init : tok_state := mkTok [] [] false.

(** The body of the [for] loop, for one [char]. *)
Definition tok_step (st : tok_state) (char : ascii) : tok_state :=
  if Ascii.eqb char dquote then
    mkTok (result st) (current st) (negb (inQuotes st))
  else if Ascii.eqb char comma && negb (inQuotes st) then
    mkTok (result st ++ [current st]) [] (inQuotes st)
  else
    mkTok (result st) (current st ++ [char]) (inQuotes st).

Definition tok_scan (st : tok_state) (line : jsstring) : tok_state :=
  fold_left tok_step line st.

(** [result.push(current); return result] *)
Definition tok_finish (st : tok_state) : list jsstring :=
  result st ++ [current st].

Definition parseCSVLine (line : jsstring) : list jsstring :=
  tok_finish (tok_scan tok_init line).

(** ** The record extractor: [parseCSV] *)

Record Record_ : Type := mkRecord {
  username : jsstring;
  displayName : jsstring
}.

(** A call either returns the array [data] or throws [new Error(message)]. *)
Inductive outcome : Type :=
| Ok (data : list Record_)
| Throw (message : jsstring).

Definition msg_empty : jsstring := str "CSV file is empty".

Definition msg_missing_columns : jsstring :=
  str "CSV must contain " ++ [dquote] ++ str "username" ++ [dquote] ++
  str " and " ++ [dquote] ++ str "displayName" ++ [dquote] ++ str " columns".

(** [lines[0].toLowerCase().split(',').map(h => removeQuotes(h.trim()))] *)
Definition headerCells (line0 : jsstring) : list jsstring :=
  map (fun h => removeQuotes (trim h)) (split comma (toLowerCase line0)).

Definition isUsername (h : jsstring) : bool := str_eqb h (str "username").

Definition isDisplayName (h : jsstring) : bool :=
  str_eqb h (str "displayname") || str_eqb h (str "display_name") ||
  str_eqb h (str "display name").

(** A string is truthy when it is not empty. *)
Definition truthy (s : jsstring) : bool := negb (str_eqb s []).

(** The body of the loop over the data rows, for [lines[i]]; [data.push]
    appends at the end.  [values[k]] is read only under the length test, so
    the default of [nth] is never returned (see [row_indices_in_range]). *)
Definition row_step (usernameIndex displayNameIndex : Z)
    (data : list Record_) (line : jsstring) : list Record_ :=
  if str_eqb (trim line) [] then data
  else
    let values := parseCSVLine line in
    if Z.of_nat (List.length values) >? Z.max usernameIndex displayNameIndex then
      let username := removeQuotes (trim (nth (Z.to_nat usernameIndex) values [])) in
      let displayName := removeQuotes (trim (nth (Z.to_nat displayNameIndex) values [])) in
      if truthy username && truthy displayName
      then data ++ [mkRecord username displayName]
      else data
    else data.

Definition parseCSV (text : jsstring) : outcome :=
  let lines := split LF (trim text) in
  match lines with
  | [] => Throw msg_empty
  | line0 :: rows =>
      let header := headerCells line0 in
      let usernameIndex := findIndex isUsername header in
      let displayNameIndex := findIndex isDisplayName header in
      if (usernameIndex =? -1) || (displayNameIndex =? -1)
      then Throw msg_missing_columns
      else Ok (fold_left (row_step usernameIndex displayNameIndex) rows [])
  end.

(** ** The formatting step: [formatOutput] *)

Definition formatRow (row : Record_) : jsstring :=
  username row ++ [at_sign] ++ displayName row.

Definition formatOutput (data : list Record_) : jsstring :=
  join (str "," ++ [LF]) (map formatRow data).

(** ** The file loader: [reader.onload] in [handleFileSelect] *)

(** The component state of [App]: the handler sets [parsedData],
    [outputText] and [error] and leaves the rest as it finds it. *)
Record ui_state : Type := mkUi {
  file : option jsstring;
  parsedData : list Record_;
  outputText : jsstring;
  error : jsstring;
  isDragging : bool;
  copied : bool;
  showToast : bool
}.

Definition setResult (st : ui_state)
    (data : list Record_) (text message : jsstring) : ui_state :=
  mkUi (file st) data text message (isDragging st) (copied st) (showToast st).

Definition msg_no_rows : jsstring := str "No valid data rows found in CSV".

(** The [try] block throws on an empty [data]; the [catch] block stores the
    message and clears the records and the output text. *)
Definition onload (st : ui_state) (text : jsstring) : ui_state :=
  match parseCSV text with
  | Ok [] => setResult st [] [] msg_no_rows
  | Ok data => setResult st data (formatOutput data) []
  | Throw message => setResult st [] [] message
  end.

(** * Vocabulary of the statements *)

(** A string of white space only (the empty string included). *)
Definition blank (s : jsstring) : bool := forallb isWhiteSpace s.

(** The code unit [c] does not occur in [s]. *)
Definition lacks (c : ascii) (s : jsstring) : bool :=
  forallb (fun x => negb (Ascii.eqb x c)) s.

(** The rows of a text after its first line: each one behind a separator. *)
Definition tail_text (sep : ascii) (rows : list jsstring) : jsstring :=
  flat_map (fun l => sep :: l) rows.

(** What trimming a text at its end does to its lines: the blank lines at
    the end go, and the last line left is trimmed at its end. *)
Fixpoint trimEnd_lines (ls : list jsstring) : list jsstring :=
  match ls with
  | [] => []
  | l :: ls' =>
      match trimEnd_lines ls' with
      | [] => match trimEnd l with [] => [] | t => [t] end
      | ls'' => l :: ls''
      end
  end.

(** The records one data row adds to an empty [data]: none or one. *)
Definition row_records (usernameIndex displayNameIndex : Z)
    (line : jsstring) : list Record_ :=
  row_step usernameIndex displayNameIndex [] line.

(** Line 0 of the trimmed input: the header row. *)
Definition first_line (text : jsstring) : jsstring :=
  hd [] (split LF (trim text)).

(** The value of column [k] of a data row: its field, trimmed. *)
Definition field (k : Z) (line : jsstring) : jsstring :=
  trim (nth (Z.to_nat k) (parseCSVLine line) []).

(** A data row is valid for the positions [uI] and [dI] when its fields
    cover both and both values are not empty after trimming. *)
Definition valid_row (uI dI : Z) (line : jsstring) : bool :=
  (Z.of_nat (List.length (parseCSVLine line)) >? Z.max uI dI) &&
  truthy (field uI line) && truthy (field dI line).

(** A row of a two-column file: one line, two fields, both with a value. *)
Definition two_column_row (line u d : jsstring) : Prop :=
  lacks LF line = true /\ parseCSVLine line = [u; d] /\
  trim u <> [] /\ trim d <> [].

(** A data row of a file together with the two values it holds. *)
Record csv_row : Type := mkRow {
  row_line : jsstring;
  row_username : jsstring;
  row_displayName : jsstring
}.

Definition well_formed_row (r : csv_row) : Prop :=
  two_column_row (row_line r) (row_username r) (row_displayName r).

Definition record_of_row (r : csv_row) : Record_ :=
  mkRecord (trim (row_username r)) (trim (row_displayName r)).

(** [i] is the position of the leftmost element of [arr] that satisfies
    [p]. *)
Definition leftmost {A : Type} (p : A -> bool) (arr : list A) (i : nat) : Prop :=
  (exists x, nth_error arr i = Some x /\ p x = true) /\
  forall k x, (k < i)%nat -> nth_error arr k = Some x -> p x = false.

(** Capital of an ASCII letter; the spellings of the two roles are ASCII. *)
Definition toUpperChar (c : ascii) : ascii :=
  let n := N_of_ascii c in
  (if (97 <=? n) && (n <=? 122) then ascii_of_N (n - 32) else c)%N.

(** [s] is [x] in some casing: code unit by code unit, that of [x] or its
    capital. *)
Definition casing_of (x s : jsstring) : Prop :=
  Forall2 (fun a b => b = a \/ b = toUpperChar a) x s.

Definition displayName_spellings : list jsstring :=
  [str "displayname"; str "display_name"; str "display name"].

(** A header cell as a file writes it: the name, in quotes or not, with
    white space around. *)
Definition cell_text (w1 : jsstring) (quoted : bool) (x w2 : jsstring) : jsstring :=
  w1 ++ (if quoted then dquote :: x ++ [dquote] else x) ++ w2.

(** A field of a line as a file writes it: pieces outside quotes, without
    comma and quote, and pieces between two quotes, without quote. *)
Inductive chunk : Type :=
| Plain (s : jsstring)
| Quoted (s : jsstring).

Definition chunk_ok (c : chunk) : bool :=
  match c with
  | Plain s => lacks comma s && lacks dquote s
  | Quoted s => lacks dquote s
  end.

Definition chunk_text (c : chunk) : jsstring :=
  match c with
  | Plain s => s
  | Quoted s => dquote :: s ++ [dquote]
  end.

Definition chunk_value (c : chunk) : jsstring :=
  match c with Plain s | Quoted s => s end.

Definition field_text (f : list chunk) : jsstring := flat_map chunk_text f.
Definition field_value (f : list chunk) : jsstring := flat_map chunk_value f.

(** A data row written as two fields, the username and the displayName,
    and what makes it a row with a value in both columns. *)
Definition row_of_fields (fu fd : list chunk) : csv_row :=
  mkRow (field_text fu ++ comma :: field_text fd)
        (field_value fu) (field_value fd).

Definition fields_ok (fu fd : list chunk) : Prop :=
  Forall (fun c => chunk_ok c = true) fu /\
  Forall (fun c => chunk_ok c = true) fd /\
  lacks LF (field_text fu) = true /\ lacks LF (field_text fd) = true /\
  trim (field_value fu) <> [] /\ trim (field_value fd) <> [].

(** The tokenizer as the specification words it, rule by rule: a quote
    toggles the flag and is not kept, a comma outside quotes ends the
    field, a comma inside quotes and any other code unit go to the buffer. *)
Inductive tok_run : tok_state -> jsstring -> tok_state -> Prop :=
| run_end st :
    tok_run st [] st
| run_quote r cur q line st' :
    tok_run (mkTok r cur (negb q)) line st' ->
    tok_run (mkTok r cur q) (dquote :: line) st'
| run_comma_outside r cur line st' :
    tok_run (mkTok (r ++ [cur]) [] false) line st' ->
    tok_run (mkTok r cur false) (comma :: line) st'
| run_comma_inside r cur line st' :
    tok_run (mkTok r (cur ++ [comma]) true) line st' ->
    tok_run (mkTok r cur true) (comma :: line) st'
| run_other r cur q c line st' :
    c <> dquote -> c <> comma ->
    tok_run (mkTok r (cur ++ [c]) q) line st' ->
    tok_run (mkTok r cur q) (c :: line) st'.

(** The header cells as the specification words them: line 0 through the
    tokenizer, each field then lowercased, trimmed and de-quoted. *)
Definition headerCells_tokenized (line0 : jsstring) : list jsstring :=
  map (fun h => removeQuotes (trim (toLowerCase h))) (parseCSVLine line0).

(** * The other handlers of [App] *)

Definition CR : ascii := "013"%char.

(** [s.endsWith(t)] *)
Definition endsWith (s t : jsstring) : bool := startsWith (rev t) (rev s).

Definition msg_not_csv : jsstring := str "Please upload a valid CSV file".
Definition msg_read_error : jsstring := str "Error reading file".

(** The state of a component that has just been mounted. *)
Definition initial_state : ui_state := mkUi None [] [] [] false false false.

Definition setError (st : ui_state) (message : jsstring) : ui_state :=
  mkUi (file st) (parsedData st) (outputText st) message
       (isDragging st) (copied st) (showToast st).

Definition setIsDragging (st : ui_state) (b : bool) : ui_state :=
  mkUi (file st) (parsedData st) (outputText st) (error st)
       b (copied st) (showToast st).

Definition setCopied (st : ui_state) (b : bool) : ui_state :=
  mkUi (file st) (parsedData st) (outputText st) (error st)
       (isDragging st) b (showToast st).

Definition setShowToast (st : ui_state) (b : bool) : ui_state :=
  mkUi (file st) (parsedData st) (outputText st) (error st)
       (isDragging st) (copied st) b.

(** [handleFileSelect], up to the call of [reader.readAsText]: the new
    state, and whether the file is being read.  A file object is given by
    its name; [None] is the undefined [files[0]] of an empty selection. *)
Definition handleFileSelect (st : ui_state) (selectedFile : option jsstring)
    : ui_state * bool :=
  match selectedFile with
  | None => (st, false)
  | Some name =>
      if negb (endsWith name (str ".csv")) then (setError st msg_not_csv, false)
      else (mkUi (Some name) (parsedData st) (outputText st) []
                 (isDragging st) (copied st) (showToast st), true)
  end.

(** [reader.onerror] *)
Definition onerror (st : ui_state) : ui_state := setError st msg_read_error.

Definition handleDragOver (st : ui_state) : ui_state := setIsDragging st true.
Definition handleDragLeave (st : ui_state) : ui_state := setIsDragging st false.

Definition handleDrop (st : ui_state) (droppedFile : option jsstring)
    : ui_state * bool :=
  handleFileSelect (setIsDragging st false) droppedFile.

Definition handleInputChange (st : ui_state) (selectedFile : option jsstring)
    : ui_state * bool :=
  handleFileSelect st selectedFile.

(** [handleReset]; the value of the file input, which it clears too, is
    no part of the component state. *)
Definition handleReset (st : ui_state) : ui_state :=
  mkUi None [] [] [] (isDragging st) false (showToast st).

(** The component state and the system clipboard. *)
Record world : Type := mkWorld {
  ui : ui_state;
  clipboard : jsstring
}.

(** [handleCopy]: [written] tells whether [clipboard.writeText] resolved;
    when it rejects, the [catch] block only logs. *)
Definition handleCopy (w : world) (written : bool) : world :=
  if written
  then mkWorld (setShowToast (setCopied (ui w) true) true) (outputText (ui w))
  else w.

(** What can happen to a mounted component: the events its handlers are
    bound to, the two callbacks of a file reader and the two timers that
    [handleCopy] sets. *)
Inductive event : Type :=
| InputChanged (selectedFile : option jsstring)
| Dropped (droppedFile : option jsstring)
| DraggedOver
| DragLeft
| ReaderLoaded (text : jsstring)
| ReaderFailed
| CopyClicked (written : bool)
| CopiedTimer
| ToastTimer
| ResetClicked.

Definition ui_step (w : world) (e : event) : world :=
  match e with
  | InputChanged f => mkWorld (fst (handleInputChange (ui w) f)) (clipboard w)
  | Dropped f => mkWorld (fst (handleDrop (ui w) f)) (clipboard w)
  | DraggedOver => mkWorld (handleDragOver (ui w)) (clipboard w)
  | DragLeft => mkWorld (handleDragLeave (ui w)) (clipboard w)
  | ReaderLoaded text => mkWorld (onload (ui w) text) (clipboard w)
  | ReaderFailed => mkWorld (onerror (ui w)) (clipboard w)
  | CopyClicked written => handleCopy w written
  | CopiedTimer => mkWorld (setCopied (ui w) false) (clipboard w)
  | ToastTimer => mkWorld (setShowToast (ui w) false) (clipboard w)
  | ResetClicked => mkWorld (handleReset (ui w)) (clipboard w)
  end.

Definition ui_run (w : world) (events : list event) : world :=
  fold_left ui_step events w.

(** The lines of the text [formatOutput] returns, for records without
    line feed: a comma ends every line but the last. *)
Fixpoint output_lines (data : list Record_) : list jsstring :=
  match data with
  | [] => [[]]
  | [row] => [formatRow row]
  | row :: rest => (formatRow row ++ [comma]) :: output_lines rest
  end.

(** A record none of whose values holds the code unit [c]. *)
Definition record_lacks (c : ascii) (r : Record_) : bool :=
  lacks c (username r) && lacks c (displayName r).

(** The code units the tokenizer always keeps: neither comma nor quote. *)
Definition kept (c : ascii) : bool :=
  negb (Ascii.eqb c comma) && negb (Ascii.eqb c dquote).

(** A header row, given by its cells, has a [username] column; has a
    displayName column, under one of its three spellings. *)
Definition has_username_column (cells : list jsstring) : Prop :=
  In (str "username") cells.

Definition has_displayName_column (cells : list jsstring) : Prop :=
  exists name, In name displayName_spellings /\ In name cells.

(** * Facts about code units *)

Ltac ascii_cases c := destruct c as [[] [] [] [] [] [] [] []].

Lemma isWhiteSpace_not_comma (c : ascii) :
  isWhiteSpace c = true -> Ascii.eqb c comma = false.
Proof. ascii_cases c; vm_compute; congruence. Qed.

Lemma isWhiteSpace_not_dquote (c : ascii) :
  isWhiteSpace c = true -> Ascii.eqb c dquote = false.
Proof. ascii_cases c; vm_compute; congruence. Qed.

Lemma isWhiteSpace_toLowerChar (c : ascii) :
  isWhiteSpace (toLowerChar c) = isWhiteSpace c.
Proof. ascii_cases c; vm_compute; reflexivity. Qed.

Lemma toLowerChar_comma (c : ascii) :
  Ascii.eqb (toLowerChar c) comma = Ascii.eqb c comma.
Proof. ascii_cases c; vm_compute; reflexivity. Qed.

Lemma toLowerChar_idem (c : ascii) :
  toLowerChar (toLowerChar c) = toLowerChar c.
Proof. ascii_cases c; vm_compute; reflexivity. Qed.

Lemma str_eqb_eq (a b : jsstring) : str_eqb a b = true <-> a = b.
Proof.
  revert b; induction a as [|x a IH]; intros [|y b]; simpl;
    try (split; congruence).
  rewrite andb_true_iff, Ascii.eqb_eq, IH. split.
  - intros [-> ->]; reflexivity.
  - intros H; injection H; auto.
Qed.

Lemma str_eqb_refl (a : jsstring) : str_eqb a a = true.
Proof. apply str_eqb_eq; reflexivity. Qed.

Lemma str_eqb_nil (a : jsstring) : str_eqb a [] = true <-> a = [].
Proof. apply str_eqb_eq. Qed.

Lemma truthy_true (s : jsstring) : truthy s = true <-> s <> [].
Proof.
  unfold truthy. rewrite negb_true_iff. split.
  - intros H E. rewrite E in H. discriminate.
  - intros H. destruct (str_eqb s []) eqn:E; [|reflexivity].
    apply str_eqb_nil in E. contradiction.
Qed.

(** * Facts about [trim] *)

Lemma trimStart_blank (w s : jsstring) :
  blank w = true -> trimStart (w ++ s) = trimStart s.
Proof.
  induction w as [|c w IH]; simpl; [reflexivity|].
  rewrite andb_true_iff. intros [-> Hw]. auto.
Qed.

Lemma trimStart_prefix (s : jsstring) :
  exists w, blank w = true /\ s = w ++ trimStart s.
Proof.
  induction s as [|c s [w [Hw E]]]; simpl.
  - exists []. auto.
  - destruct (isWhiteSpace c) eqn:Hc.
    + exists (c :: w). simpl. rewrite Hc, Hw. split; [reflexivity|congruence].
    + exists []. auto.
Qed.

Lemma trimEnd_app (a b : jsstring) :
  trimEnd (a ++ b) =
  match trimEnd b with [] => trimEnd a | _ :: _ => a ++ trimEnd b end.
Proof.
  induction a as [|c a IH]; simpl.
  - destruct (trimEnd b); reflexivity.
  - rewrite IH. destruct (trimEnd b) eqn:Eb; [reflexivity|].
    destruct a; reflexivity.
Qed.

Lemma trimEnd_blank (w : jsstring) : blank w = true -> trimEnd w = [].
Proof.
  induction w as [|c w IH]; simpl; [reflexivity|].
  rewrite andb_true_iff. intros [-> Hw]. rewrite IH by assumption. reflexivity.
Qed.

Lemma trimEnd_nil_blank (s : jsstring) : trimEnd s = [] -> blank s = true.
Proof.
  induction s as [|c s IH]; simpl; [reflexivity|].
  destruct (trimEnd s); [|discriminate].
  destruct (isWhiteSpace c); [auto|discriminate].
Qed.

Lemma trimEnd_app_blank (s w : jsstring) :
  blank w = true -> trimEnd (s ++ w) = trimEnd s.
Proof. intros Hw. rewrite trimEnd_app, trimEnd_blank by assumption. reflexivity. Qed.

Lemma trimEnd_suffix (s : jsstring) :
  exists w, blank w = true /\ s = trimEnd s ++ w.
Proof.
  induction s as [|c s [w [Hw E]]]; simpl.
  - exists []. auto.
  - destruct (trimEnd s) eqn:Et.
    + destruct (isWhiteSpace c) eqn:Hc.
      * exists (c :: s). simpl. rewrite Hc. split; [|reflexivity].
        apply trimEnd_nil_blank; assumption.
      * exists w. simpl in *. split; [assumption|congruence].
    + exists w. split; [assumption|]. simpl in *. congruence.
Qed.

Lemma trimEnd_idem (s : jsstring) : trimEnd (trimEnd s) = trimEnd s.
Proof.
  destruct (trimEnd_suffix s) as [w [Hw E]].
  rewrite E at 2. rewrite trimEnd_app_blank by assumption. reflexivity.
Qed.

(** [trimEnd] removes the longest blank suffix: the definition by recursion
    from the front agrees with trimming the reversed string at its start. *)
Lemma trimEnd_rev (s : jsstring) : trimEnd s = rev (trimStart (rev s)).
Proof.
  induction s as [|c s IH] using rev_ind; [reflexivity|].
  rewrite rev_app_distr. simpl. rewrite trimEnd_app. simpl.
  destruct (isWhiteSpace c) eqn:Hc.
  - exact IH.
  - simpl. rewrite rev_involutive. reflexivity.
Qed.

Lemma trim_blank (s : jsstring) : blank s = true -> trim s = [].
Proof.
  intros H. unfold trim. apply trimEnd_blank.
  destruct (trimStart_prefix s) as [w [Hw E]].
  rewrite E in H. unfold blank in *. rewrite forallb_app in H.
  apply andb_true_iff in H. tauto.
Qed.

Lemma trim_nil_blank (s : jsstring) : trim s = [] -> blank s = true.
Proof.
  unfold trim. intros H. apply trimEnd_nil_blank in H.
  destruct (trimStart_prefix s) as [w [Hw E]].
  rewrite E. unfold blank in *. rewrite forallb_app, Hw, H. reflexivity.
Qed.

Lemma trim_app_blank_l (w s : jsstring) :
  blank w = true -> trim (w ++ s) = trim s.
Proof. intros H. unfold trim. rewrite trimStart_blank by assumption. reflexivity. Qed.

Lemma trimStart_app_nonblank (s t : jsstring) :
  blank s = false -> trimStart (s ++ t) = trimStart s ++ t.
Proof.
  induction s as [|c s IH]; simpl; [discriminate|].
  destruct (isWhiteSpace c); simpl; auto.
Qed.

Lemma trim_app_blank_r (s w : jsstring) :
  blank w = true -> trim (s ++ w) = trim s.
Proof.
  intros Hw. unfold trim. destruct (blank s) eqn:Hs.
  - rewrite !trimEnd_blank; [reflexivity| |].
    + destruct (trimStart_prefix s) as [v [Hv E]].
      rewrite E in Hs. unfold blank in *. rewrite forallb_app in Hs.
      apply andb_true_iff in Hs. tauto.
    + destruct (trimStart_prefix (s ++ w)) as [v [Hv E]].
      assert (H : blank (s ++ w) = true)
        by (unfold blank in *; rewrite forallb_app, Hs, Hw; reflexivity).
      rewrite E in H. unfold blank in *. rewrite forallb_app in H.
      apply andb_true_iff in H. tauto.
  - rewrite trimStart_app_nonblank by assumption.
    apply trimEnd_app_blank; assumption.
Qed.

Lemma trim_trimEnd (s : jsstring) : trim (trimEnd s) = trim s.
Proof.
  destruct (trimEnd_suffix s) as [w [Hw E]].
  rewrite E at 2. rewrite trim_app_blank_r by assumption. reflexivity.
Qed.

Lemma trim_trimStart (s : jsstring) : trim (trimStart s) = trim s.
Proof.
  destruct (trimStart_prefix s) as [w [Hw E]].
  rewrite E at 2. rewrite trim_app_blank_l by assumption. reflexivity.
Qed.

Lemma blank_false_trim (s : jsstring) : blank s = false <-> trim s <> [].
Proof.
  split.
  - intros H E. apply trim_nil_blank in E. congruence.
  - intros H. destruct (blank s) eqn:E; [|reflexivity].
    apply trim_blank in E. contradiction.
Qed.

(** * Facts about [split] and [join] *)

Lemma split_hd_tl (sep : ascii) (s : jsstring) :
  split sep s = hd [] (split sep s) :: tl (split sep s).
Proof. destruct s as [|c s]; simpl; [|destruct (Ascii.eqb c sep)]; reflexivity. Qed.

Lemma split_not_nil (sep : ascii) (s : jsstring) : split sep s <> [].
Proof. rewrite split_hd_tl. discriminate. Qed.

Lemma split_last (sep : ascii) (s : jsstring) :
  exists la a, split sep s = la ++ [a].
Proof.
  destruct (exists_last (split_not_nil sep s)) as [la [a E]]. eauto.
Qed.

Lemma split_cons_sep (sep : ascii) (s : jsstring) :
  split sep (sep :: s) = [] :: split sep s.
Proof. simpl. rewrite Ascii.eqb_refl. reflexivity. Qed.

Lemma split_cons_other (sep c : ascii) (s : jsstring) :
  Ascii.eqb c sep = false ->
  split sep (c :: s) = (c :: hd [] (split sep s)) :: tl (split sep s).
Proof. intros H. simpl. rewrite H. reflexivity. Qed.

(** Splitting a concatenation: the last piece of the left part and the
    first piece of the right part are glued. *)
Lemma split_app (sep : ascii) (x y : jsstring) :
  forall la a b lb,
    split sep x = la ++ [a] -> split sep y = b :: lb ->
    split sep (x ++ y) = la ++ [a ++ b] ++ lb.
Proof.
  induction x as [|c x IH]; intros la a b lb Hx Hy.
  - simpl in Hx. destruct la as [|l la].
    + injection Hx as <-. exact Hy.
    + destruct la; discriminate.
  - destruct (split_last sep x) as [la' [a' Ex]].
    specialize (IH la' a' b lb Ex Hy).
    simpl in Hx |- *. rewrite IH. rewrite Ex in Hx.
    destruct (Ascii.eqb c sep).
    + change ([] :: la' ++ [a']) with (([] :: la') ++ [a']) in Hx.
      apply app_inj_tail in Hx. destruct Hx as [<- <-]. reflexivity.
    + destruct la' as [|l0 la'']; simpl in Hx |- *.
      * destruct la as [|l la]; [|destruct la; discriminate].
        injection Hx as <-. reflexivity.
      * change ((c :: l0) :: la'' ++ [a']) with (((c :: l0) :: la'') ++ [a']) in Hx.
        apply app_inj_tail in Hx. destruct Hx as [<- <-]. reflexivity.
Qed.

Lemma split_lacks (sep : ascii) (s : jsstring) :
  lacks sep s = true -> split sep s = [s].
Proof.
  induction s as [|c s IH]; simpl; [reflexivity|].
  rewrite andb_true_iff, negb_true_iff. intros [-> H].
  rewrite IH by assumption. reflexivity.
Qed.

Lemma split_app_lacks_l (sep : ascii) (w s : jsstring) :
  lacks sep w = true ->
  split sep (w ++ s) = (w ++ hd [] (split sep s)) :: tl (split sep s).
Proof.
  intros Hw.
  apply (split_app sep w s [] w (hd [] (split sep s)) (tl (split sep s))).
  - apply split_lacks; assumption.
  - apply split_hd_tl.
Qed.

Lemma split_app_lacks_r (sep : ascii) (s w : jsstring) :
  lacks sep w = true ->
  forall la a, split sep s = la ++ [a] -> split sep (s ++ w) = la ++ [a ++ w].
Proof.
  intros Hw la a Hs.
  apply (split_app sep s w la a w []); [assumption|].
  apply split_lacks; assumption.
Qed.

Lemma split_tail_text (sep : ascii) (rows : list jsstring) :
  forall h,
    lacks sep h = true -> Forall (fun l => lacks sep l = true) rows ->
    split sep (h ++ tail_text sep rows) = h :: rows.
Proof.
  induction rows as [|r rows IH]; intros h Hh Hrows; simpl.
  - rewrite app_nil_r. apply split_lacks; assumption.
  - inversion Hrows as [|? ? Hr Hrest]; subst.
    rewrite (split_app sep h (sep :: r ++ tail_text sep rows) [] h [] (r :: rows)).
    + simpl. rewrite app_nil_r. reflexivity.
    + apply split_lacks; assumption.
    + rewrite split_cons_sep. f_equal. apply IH; assumption.
Qed.

Lemma join_cons (sep : ascii) (a : jsstring) (rest : list jsstring) :
  join [sep] (a :: rest) = a ++ tail_text sep rest.
Proof.
  revert a; induction rest as [|b rest IH]; intros a.
  - simpl. rewrite app_nil_r. reflexivity.
  - change (join [sep] (a :: b :: rest)) with (a ++ [sep] ++ join [sep] (b :: rest)).
    rewrite IH. reflexivity.
Qed.

Lemma split_join (sep : ascii) (h : jsstring) (rows : list jsstring) :
  Forall (fun l => lacks sep l = true) (h :: rows) ->
  split sep (join [sep] (h :: rows)) = h :: rows.
Proof.
  intros H. inversion H; subst. rewrite join_cons.
  apply split_tail_text; assumption.
Qed.

(** [split] undoes [join] (above) and [join] undoes [split]: the pieces,
    put together again with the separator, are the string. *)
Lemma join_split (sep : ascii) (s : jsstring) :
  join [sep] (split sep s) = s.
Proof.
  induction s as [|c s IH]; [reflexivity|].
  simpl. destruct (Ascii.eqb c sep) eqn:E.
  - apply Ascii.eqb_eq in E. subst c.
    rewrite (join_cons sep []), split_hd_tl. simpl.
    rewrite <- join_cons, <- split_hd_tl, IH. reflexivity.
  - rewrite (join_cons sep (c :: _)). simpl.
    rewrite <- join_cons, <- split_hd_tl, IH. reflexivity.
Qed.

Lemma split_pieces_lack_sep (sep : ascii) (s : jsstring) :
  Forall (fun l => lacks sep l = true) (split sep s).
Proof.
  induction s as [|c s IH]; [repeat constructor|].
  simpl. rewrite (split_hd_tl sep s) in IH.
  inversion IH as [|? ? Hh Ht]; subst.
  destruct (Ascii.eqb c sep) eqn:E.
  - constructor; [reflexivity|]. rewrite split_hd_tl. assumption.
  - constructor; [|assumption]. simpl. rewrite E. exact Hh.
Qed.

(** * Trimming a text and its lines *)

Lemma lacks_app (c : ascii) (a b : jsstring) :
  lacks c (a ++ b) = lacks c a && lacks c b.
Proof. apply forallb_app. Qed.

Lemma lacks_trimStart (c : ascii) (s : jsstring) :
  lacks c s = true -> lacks c (trimStart s) = true.
Proof.
  destruct (trimStart_prefix s) as [w [_ E]]. intros H.
  rewrite E, lacks_app in H. apply andb_true_iff in H. tauto.
Qed.

Lemma lacks_trimEnd (c : ascii) (s : jsstring) :
  lacks c s = true -> lacks c (trimEnd s) = true.
Proof.
  destruct (trimEnd_suffix s) as [w [_ E]]. intros H.
  rewrite E, lacks_app in H. apply andb_true_iff in H. tauto.
Qed.

Lemma isWhiteSpace_LF : isWhiteSpace LF = true.
Proof. reflexivity. Qed.

Lemma trimEnd_tail_text (rows : list jsstring) :
  trimEnd (tail_text LF rows) = tail_text LF (trimEnd_lines rows).
Proof.
  induction rows as [|l rows IH]; [reflexivity|].
  change (tail_text LF (l :: rows)) with (LF :: l ++ tail_text LF rows).
  cbn [trimEnd trimEnd_lines]. rewrite trimEnd_app, IH, isWhiteSpace_LF.
  destruct (trimEnd_lines rows) as [|x xs]; simpl.
  - destruct (trimEnd l); simpl; [reflexivity|].
    rewrite app_nil_r. reflexivity.
  - destruct l; reflexivity.
Qed.

Lemma trimEnd_lines_lacks (c : ascii) (rows : list jsstring) :
  Forall (fun l => lacks c l = true) rows ->
  Forall (fun l => lacks c l = true) (trimEnd_lines rows).
Proof.
  induction 1 as [|l rows Hl Hrows IH]; simpl; [constructor|].
  destruct (trimEnd_lines rows) as [|x xs].
  - pose proof (lacks_trimEnd c l Hl) as Ht.
    destruct (trimEnd l); constructor; auto.
  - constructor; assumption.
Qed.

(** The lines [parseCSV] works on, for a text given by its lines: a header
    that is not blank and any rows. *)
Lemma lines_of_text (h : jsstring) (rows : list jsstring) :
  blank h = false ->
  Forall (fun l => lacks LF l = true) (h :: rows) ->
  split LF (trim (join [LF] (h :: rows))) =
  match trimEnd_lines rows with
  | [] => [trim h]
  | rows' => trimStart h :: rows'
  end.
Proof.
  intros Hh Hl. inversion Hl as [|? ? Hlh Hlr]; subst.
  rewrite join_cons. unfold trim.
  rewrite trimStart_app_nonblank by assumption.
  rewrite trimEnd_app, trimEnd_tail_text.
  pose proof (trimEnd_lines_lacks LF rows Hlr) as Hr'.
  destruct (trimEnd_lines rows) as [|x xs] eqn:E.
  - simpl. apply split_lacks. apply lacks_trimEnd, lacks_trimStart; assumption.
  - change (tail_text LF (x :: xs)) with (LF :: x ++ tail_text LF xs).
    change (LF :: x ++ tail_text LF xs) with (tail_text LF (x :: xs)).
    apply split_tail_text; [apply lacks_trimStart|]; assumption.
Qed.

(** * Facts about the tokenizer *)

Lemma tok_scan_app (st : tok_state) (a b : jsstring) :
  tok_scan st (a ++ b) = tok_scan (tok_scan st a) b.
Proof. apply fold_left_app. Qed.

Lemma tok_scan_cons (st : tok_state) (c : ascii) (l : jsstring) :
  tok_scan st (c :: l) = tok_scan (tok_step st c) l.
Proof. reflexivity. Qed.

(** Outside quotes, a run without comma and quote goes to the buffer. *)
Lemma tok_scan_plain (w : jsstring) :
  forall st,
    lacks comma w = true -> lacks dquote w = true ->
    tok_scan st w = mkTok (result st) (current st ++ w) (inQuotes st).
Proof.
  induction w as [|c w IH]; intros [r cur q]; simpl.
  - intros _ _. rewrite app_nil_r. reflexivity.
  - rewrite !andb_true_iff, !negb_true_iff. intros [Hc Hw] [Hd Hw'].
    fold (tok_scan (tok_step (mkTok r cur q) c) w).
    unfold tok_step. rewrite Hd, Hc. simpl.
    rewrite IH by assumption. simpl. rewrite <- app_assoc. reflexivity.
Qed.

(** Inside quotes, a run without quote goes to the buffer, commas included. *)
Lemma tok_scan_quoted (w : jsstring) :
  forall r cur,
    lacks dquote w = true ->
    tok_scan (mkTok r cur true) w = mkTok r (cur ++ w) true.
Proof.
  induction w as [|c w IH]; intros r cur; simpl.
  - intros _. rewrite app_nil_r. reflexivity.
  - rewrite andb_true_iff, negb_true_iff. intros [Hd Hw].
    fold (tok_scan (tok_step (mkTok r cur true) c) w).
    unfold tok_step. rewrite Hd. simpl. rewrite andb_false_r.
    rewrite IH by assumption. rewrite <- app_assoc. reflexivity.
Qed.

Lemma tok_step_lacks_dquote (st : tok_state) (c : ascii) :
  Forall (fun f => lacks dquote f = true) (result st) ->
  lacks dquote (current st) = true ->
  Forall (fun f => lacks dquote f = true) (result (tok_step st c)) /\
  lacks dquote (current (tok_step st c)) = true.
Proof.
  intros Hr Hc. unfold tok_step.
  destruct (Ascii.eqb c dquote) eqn:Ed; simpl; [auto|].
  destruct (Ascii.eqb c comma && negb (inQuotes st)); simpl.
  - split; [|reflexivity]. apply Forall_app. auto.
  - split; [assumption|]. rewrite lacks_app, Hc. simpl. rewrite Ed. reflexivity.
Qed.

Lemma tok_scan_lacks_dquote (line : jsstring) :
  forall st,
    Forall (fun f => lacks dquote f = true) (result st) ->
    lacks dquote (current st) = true ->
    Forall (fun f => lacks dquote f = true) (result (tok_scan st line)) /\
    lacks dquote (current (tok_scan st line)) = true.
Proof.
  induction line as [|c line IH]; intros st Hr Hc; [simpl; auto|].
  rewrite tok_scan_cons. apply IH; apply tok_step_lacks_dquote; assumption.
Qed.

(** No field the tokenizer returns holds a double quote. *)
Lemma parseCSVLine_lacks_dquote (line : jsstring) :
  Forall (fun f => lacks dquote f = true) (parseCSVLine line).
Proof.
  unfold parseCSVLine, tok_finish.
  destruct (tok_scan_lacks_dquote line tok_init) as [Hr Hc];
    [constructor|reflexivity|].
  apply Forall_app. auto.
Qed.

Lemma removeQuotes_lacks (s : jsstring) :
  lacks dquote s = true -> removeQuotes s = s.
Proof.
  induction s as [|c s IH]; simpl; [reflexivity|].
  rewrite andb_true_iff. intros [-> H]. rewrite IH by assumption. reflexivity.
Qed.

Lemma removeQuotes_lacks_dquote (s : jsstring) :
  lacks dquote (removeQuotes s) = true.
Proof.
  induction s as [|c s IH]; [reflexivity|].
  simpl. destruct (Ascii.eqb c dquote) eqn:E; simpl; [exact IH|].
  rewrite E. exact IH.
Qed.

Lemma parseCSVLine_not_nil (line : jsstring) : parseCSVLine line <> [].
Proof.
  unfold parseCSVLine, tok_finish. intros H.
  apply app_eq_nil in H. destruct H; discriminate.
Qed.

(** White space at the end of a line goes to the end of the last field. *)
Lemma parseCSVLine_app_blank (line w : jsstring) :
  blank w = true ->
  exists la a, parseCSVLine line = la ++ [a] /\
               parseCSVLine (line ++ w) = la ++ [a ++ w].
Proof.
  intros Hw. unfold parseCSVLine, tok_finish.
  rewrite tok_scan_app, (tok_scan_plain w).
  - simpl. eauto.
  - unfold lacks, blank in *. rewrite forallb_forall in *.
    intros x Hx. rewrite isWhiteSpace_not_comma; auto.
  - unfold lacks, blank in *. rewrite forallb_forall in *.
    intros x Hx. rewrite isWhiteSpace_not_dquote; auto.
Qed.

(** A line without double quotes is simply split at its commas. *)
Lemma tok_scan_no_quotes (line : jsstring) :
  forall r cur,
    lacks dquote line = true ->
    tok_finish (tok_scan (mkTok r cur false) line) =
    r ++ (cur ++ hd [] (split comma line)) :: tl (split comma line).
Proof.
  induction line as [|c line IH]; intros r cur; simpl.
  - intros _. unfold tok_finish. simpl. rewrite app_nil_r. reflexivity.
  - rewrite andb_true_iff, negb_true_iff. intros [Hd Hl].
    fold (tok_scan (tok_step (mkTok r cur false) c) line).
    unfold tok_step. rewrite Hd. simpl. rewrite andb_true_r.
    destruct (Ascii.eqb c comma); simpl.
    + rewrite IH by assumption. rewrite <- app_assoc. simpl.
      rewrite app_nil_r, <- split_hd_tl. reflexivity.
    + rewrite IH by assumption. rewrite <- app_assoc. reflexivity.
Qed.

Lemma parseCSVLine_no_quotes (line : jsstring) :
  lacks dquote line = true -> parseCSVLine line = split comma line.
Proof.
  intros H. unfold parseCSVLine, tok_init. rewrite tok_scan_no_quotes by assumption.
  simpl. symmetry. apply split_hd_tl.
Qed.

(** * The tokenizer against its rules *)

Lemma tok_run_scan (st : tok_state) (line : jsstring) :
  tok_run st line (tok_scan st line).
Proof.
  revert st; induction line as [|c line IH]; intros [r cur q].
  - constructor.
  - rewrite tok_scan_cons. unfold tok_step. simpl.
    destruct (Ascii.eqb c dquote) eqn:Ed.
    + apply Ascii.eqb_eq in Ed. subst c. constructor. apply IH.
    + destruct (Ascii.eqb c comma) eqn:Ec; simpl.
      * apply Ascii.eqb_eq in Ec. subst c.
        destruct q; simpl; constructor; apply IH.
      * apply Ascii.eqb_neq in Ed, Ec. constructor; auto.
Qed.

Lemma tok_run_sound (st : tok_state) (line : jsstring) (st' : tok_state) :
  tok_run st line st' -> st' = tok_scan st line.
Proof.
  induction 1 as [st | r cur q line st' _ IH | r cur line st' _ IH
                  | r cur line st' _ IH | r cur q c line st' Hd Hc _ IH];
    try reflexivity; rewrite IH, tok_scan_cons; unfold tok_step; simpl.
  - reflexivity.
  - reflexivity.
  - reflexivity.
  - apply Ascii.eqb_neq in Hd, Hc. rewrite Hd, Hc. reflexivity.
Qed.

Lemma tok_scan_field (f : list chunk) :
  forall r cur,
    Forall (fun c => chunk_ok c = true) f ->
    tok_scan (mkTok r cur false) (field_text f) =
    mkTok r (cur ++ field_value f) false.
Proof.
  induction f as [|c f IH]; intros r cur Hf.
  - simpl. rewrite app_nil_r. reflexivity.
  - inversion Hf as [|? ? Hc Hrest]; subst.
    unfold field_text, field_value. simpl. rewrite tok_scan_app.
    fold (field_text f). fold (field_value f).
    destruct c as [s | s]; simpl in Hc |- *.
    + apply andb_true_iff in Hc. destruct Hc as [Hc Hq].
      rewrite (tok_scan_plain s) by assumption. simpl.
      rewrite IH by assumption. rewrite app_assoc. reflexivity.
    + change (tok_step (mkTok r cur false) dquote) with (mkTok r cur true).
      rewrite (tok_scan_app _ s [dquote]), (tok_scan_quoted s) by assumption.
      change (tok_scan (mkTok r (cur ++ s) true) [dquote])
        with (mkTok r (cur ++ s) false).
      rewrite IH by assumption. rewrite app_assoc. reflexivity.
Qed.

Lemma tok_scan_fields (fs : list (list chunk)) :
  forall f r cur,
    Forall (Forall (fun c => chunk_ok c = true)) (f :: fs) ->
    tok_finish (tok_scan (mkTok r cur false)
                  (field_text f ++ tail_text comma (map field_text fs))) =
    r ++ (cur ++ field_value f) :: map field_value fs.
Proof.
  induction fs as [|g fs IH]; intros f r cur H;
    inversion H as [|? ? Hf Hfs]; subst.
  - simpl. rewrite app_nil_r, tok_scan_field by assumption. reflexivity.
  - simpl. rewrite tok_scan_app, tok_scan_field by assumption.
    rewrite tok_scan_cons. unfold tok_step. simpl.
    rewrite IH by assumption. simpl. rewrite <- app_assoc. reflexivity.
Qed.

Lemma parseCSVLine_fields (f : list chunk) (fs : list (list chunk)) :
  Forall (Forall (fun c => chunk_ok c = true)) (f :: fs) ->
  parseCSVLine (join [comma] (map field_text (f :: fs))) =
  map field_value (f :: fs).
Proof.
  intros H. simpl map. rewrite join_cons.
  unfold parseCSVLine, tok_init. rewrite tok_scan_fields by assumption.
  reflexivity.
Qed.

(** * Facts about the header and the rows *)

Lemma blank_lacks_comma (w : jsstring) : blank w = true -> lacks comma w = true.
Proof.
  unfold lacks, blank. rewrite !forallb_forall.
  intros H x Hx. rewrite isWhiteSpace_not_comma; auto.
Qed.

Lemma blank_toLowerCase (w : jsstring) : blank (toLowerCase w) = blank w.
Proof.
  induction w as [|c w IH]; simpl; [reflexivity|].
  rewrite isWhiteSpace_toLowerChar. f_equal. exact IH.
Qed.

Lemma headerCells_app_blank_l (w h : jsstring) :
  blank w = true -> headerCells (w ++ h) = headerCells h.
Proof.
  intros Hw. unfold headerCells, toLowerCase. rewrite map_app.
  fold (toLowerCase w). fold (toLowerCase h).
  assert (Hlw : blank (toLowerCase w) = true) by (rewrite blank_toLowerCase; exact Hw).
  rewrite split_app_lacks_l by (apply blank_lacks_comma; exact Hlw).
  rewrite (split_hd_tl comma (toLowerCase h)) at 3.
  simpl. rewrite trim_app_blank_l by assumption. reflexivity.
Qed.

Lemma headerCells_app_blank_r (h w : jsstring) :
  blank w = true -> headerCells (h ++ w) = headerCells h.
Proof.
  intros Hw. unfold headerCells, toLowerCase. rewrite map_app.
  fold (toLowerCase w). fold (toLowerCase h).
  assert (Hlw : blank (toLowerCase w) = true) by (rewrite blank_toLowerCase; exact Hw).
  destruct (split_last comma (toLowerCase h)) as [la [a E]].
  rewrite (split_app_lacks_r comma _ _ (blank_lacks_comma _ Hlw) la a E), E.
  rewrite !map_app. simpl. rewrite trim_app_blank_r by assumption. reflexivity.
Qed.

Lemma headerCells_trimStart (h : jsstring) :
  headerCells (trimStart h) = headerCells h.
Proof.
  destruct (trimStart_prefix h) as [w [Hw E]].
  rewrite E at 2. rewrite headerCells_app_blank_l by assumption. reflexivity.
Qed.

Lemma headerCells_trimEnd (h : jsstring) :
  headerCells (trimEnd h) = headerCells h.
Proof.
  destruct (trimEnd_suffix h) as [w [Hw E]].
  rewrite E at 2. rewrite headerCells_app_blank_r by assumption. reflexivity.
Qed.

Lemma headerCells_trim (h : jsstring) : headerCells (trim h) = headerCells h.
Proof. unfold trim. rewrite headerCells_trimEnd. apply headerCells_trimStart. Qed.

(** A blank first line resolves no column. *)
Lemma headerCells_blank (h : jsstring) :
  blank h = true -> headerCells h = [[]].
Proof.
  intros H. rewrite <- (app_nil_l h), headerCells_app_blank_r by assumption.
  reflexivity.
Qed.

(** [data.push] only appends: a row adds its records behind [data]. *)
Lemma row_step_app (uI dI : Z) (data : list Record_) (line : jsstring) :
  row_step uI dI data line = data ++ row_records uI dI line.
Proof.
  unfold row_records, row_step.
  destruct (str_eqb (trim line) []); [rewrite app_nil_r; reflexivity|].
  cbv zeta.
  destruct (Z.of_nat (List.length (parseCSVLine line)) >? Z.max uI dI);
    [|rewrite app_nil_r; reflexivity].
  destruct (truthy _ && truthy _); [reflexivity|rewrite app_nil_r; reflexivity].
Qed.

Lemma fold_row_step (uI dI : Z) (rows : list jsstring) :
  forall data,
    fold_left (row_step uI dI) rows data =
    data ++ flat_map (row_records uI dI) rows.
Proof.
  induction rows as [|r rows IH]; intros data; simpl.
  - rewrite app_nil_r. reflexivity.
  - rewrite IH, row_step_app, <- app_assoc. reflexivity.
Qed.

Lemma row_records_blank (uI dI : Z) (line : jsstring) :
  blank line = true -> row_records uI dI line = [].
Proof.
  intros H. unfold row_records, row_step.
  rewrite trim_blank by assumption. reflexivity.
Qed.

(** The records of a row depend on its fields through their number and
    their trimmed values only. *)
Lemma row_records_fields (uI dI : Z) (l1 l2 : jsstring) :
  trim l1 = trim l2 ->
  List.length (parseCSVLine l1) = List.length (parseCSVLine l2) ->
  map trim (parseCSVLine l1) = map trim (parseCSVLine l2) ->
  row_records uI dI l1 = row_records uI dI l2.
Proof.
  intros Ht Hlen Hmap. unfold row_records, row_step.
  rewrite Ht, Hlen. cbv zeta.
  assert (Hn : forall k, trim (nth k (parseCSVLine l1) []) =
                         trim (nth k (parseCSVLine l2) [])).
  { intros k.
    change (@nil ascii) with (trim []) at 1 2.
    rewrite <- !(map_nth trim). simpl. rewrite Hmap. reflexivity. }
  rewrite !Hn. reflexivity.
Qed.

Lemma row_records_app_blank (uI dI : Z) (line w : jsstring) :
  blank w = true -> row_records uI dI (line ++ w) = row_records uI dI line.
Proof.
  intros Hw.
  destruct (parseCSVLine_app_blank line w Hw) as [la [a [E1 E2]]].
  apply row_records_fields.
  - apply trim_app_blank_r; assumption.
  - rewrite E1, E2, !length_app. reflexivity.
  - rewrite E1, E2, !map_app. simpl.
    rewrite trim_app_blank_r by assumption. reflexivity.
Qed.

Lemma row_records_trimEnd (uI dI : Z) (line : jsstring) :
  row_records uI dI (trimEnd line) = row_records uI dI line.
Proof.
  destruct (trimEnd_suffix line) as [w [Hw E]].
  rewrite E at 2. rewrite row_records_app_blank by assumption. reflexivity.
Qed.

Lemma flat_map_trimEnd_lines (uI dI : Z) (rows : list jsstring) :
  flat_map (row_records uI dI) (trimEnd_lines rows) =
  flat_map (row_records uI dI) rows.
Proof.
  induction rows as [|l rows IH]; [reflexivity|].
  cbn [trimEnd_lines flat_map]. rewrite <- IH.
  destruct (trimEnd_lines rows) as [|x xs]; [|reflexivity].
  simpl. rewrite app_nil_r, <- (row_records_trimEnd uI dI l).
  destruct (trimEnd l) eqn:E; simpl.
  - rewrite row_records_blank; reflexivity.
  - rewrite app_nil_r. reflexivity.
Qed.

(** [values[k]] is read inside the array: under the length test and after
    the test of the two indices against -1. *)
Lemma row_indices_in_range (uI dI : Z) (values : list jsstring) :
  (uI =? -1) || (dI =? -1) = false ->
  -1 <= uI -> -1 <= dI ->
  (Z.of_nat (List.length values) >? Z.max uI dI) = true ->
  (Z.to_nat uI < List.length values)%nat /\
  (Z.to_nat dI < List.length values)%nat.
Proof.
  rewrite orb_false_iff, !Z.eqb_neq, Z.gtb_gt. lia.
Qed.

Lemma findIndex_range {A : Type} (p : A -> bool) (arr : list A) :
  -1 <= findIndex p arr < Z.of_nat (List.length arr).
Proof.
  induction arr as [|x arr IH]; simpl; [lia|].
  destruct (p x); [lia|].
  destruct (findIndex p arr =? -1) eqn:E; lia.
Qed.

(** * The extractor on a text given by its lines *)

(** The result of [parseCSV] on the text whose lines are a header that
    resolves both columns and any rows: no throw, and the records of the
    rows, row by row. *)
Lemma parseCSV_lines (h : jsstring) (rows : list jsstring) :
  Forall (fun l => lacks LF l = true) (h :: rows) ->
  (findIndex isUsername (headerCells h) =? -1) ||
  (findIndex isDisplayName (headerCells h) =? -1) = false ->
  parseCSV (join [LF] (h :: rows)) =
  Ok (flat_map (row_records (findIndex isUsername (headerCells h))
                            (findIndex isDisplayName (headerCells h))) rows).
Proof.
  intros Hl Hres.
  assert (Hh : blank h = false).
  { destruct (blank h) eqn:E; [|reflexivity].
    rewrite (headerCells_blank h E) in Hres. discriminate. }
  unfold parseCSV. rewrite lines_of_text by assumption.
  destruct (trimEnd_lines rows) as [|x xs] eqn:E.
  - rewrite headerCells_trim, Hres. simpl.
    rewrite <- flat_map_trimEnd_lines, E. reflexivity.
  - rewrite headerCells_trimStart, Hres, fold_row_step. simpl app.
    rewrite <- (flat_map_trimEnd_lines _ _ rows), E. reflexivity.
Qed.

(** Without a resolved header the same text throws. *)
Lemma parseCSV_lines_missing (h : jsstring) (rows : list jsstring) :
  Forall (fun l => lacks LF l = true) (h :: rows) ->
  blank h = false ->
  (findIndex isUsername (headerCells h) =? -1) ||
  (findIndex isDisplayName (headerCells h) =? -1) = true ->
  parseCSV (join [LF] (h :: rows)) = Throw msg_missing_columns.
Proof.
  intros Hl Hh Hres.
  unfold parseCSV. rewrite lines_of_text by assumption.
  destruct (trimEnd_lines rows) as [|x xs] eqn:E.
  - rewrite headerCells_trim, Hres. reflexivity.
  - rewrite headerCells_trimStart, Hres. reflexivity.
Qed.

Lemma removeQuotes_field (k : Z) (line : jsstring) :
  removeQuotes (field k line) = field k line.
Proof.
  apply removeQuotes_lacks. unfold field, trim.
  apply lacks_trimEnd, lacks_trimStart.
  destruct (nth_in_or_default (Z.to_nat k) (parseCSVLine line) []) as [H | ->];
    [|reflexivity].
  pose proof (parseCSVLine_lacks_dquote line) as HF.
  rewrite Forall_forall in HF. auto.
Qed.

Lemma parseCSVLine_blank (line : jsstring) :
  blank line = true -> parseCSVLine line = [line].
Proof.
  intros H. destruct (parseCSVLine_app_blank [] line H) as [la [a [E1 E2]]].
  simpl in E2. rewrite E2.
  change (parseCSVLine []) with ([] ++ [@nil ascii]) in E1.
  apply app_inj_tail in E1. destruct E1 as [<- <-]. reflexivity.
Qed.

(** A valid row is not blank: the blank-line test of the loop never hides
    a row that has both values. *)
Lemma valid_row_not_blank (uI dI : Z) (line : jsstring) :
  valid_row uI dI line = true -> blank line = false.
Proof.
  unfold valid_row, field. intros H.
  destruct (blank line) eqn:E; [|reflexivity].
  rewrite (parseCSVLine_blank line E) in H.
  apply andb_true_iff in H. destruct H as [H Hd].
  apply andb_true_iff in H. destruct H as [_ Hu].
  apply truthy_true in Hu. exfalso. apply Hu.
  destruct (Z.to_nat uI) as [|[|n]]; simpl; try reflexivity.
  apply trim_blank; assumption.
Qed.

(** What one data row contributes, in terms of [valid_row] and [field]. *)
Lemma row_records_valid_row (uI dI : Z) (line : jsstring) :
  row_records uI dI line =
  if valid_row uI dI line
  then [mkRecord (field uI line) (field dI line)]
  else [].
Proof.
  destruct (valid_row uI dI line) eqn:V.
  - pose proof (valid_row_not_blank _ _ _ V) as Hb.
    apply blank_false_trim in Hb.
    unfold row_records, row_step.
    destruct (str_eqb (trim line) []) eqn:E;
      [apply str_eqb_nil in E; contradiction|].
    cbv zeta. fold (field uI line). fold (field dI line).
    rewrite !removeQuotes_field.
    unfold valid_row in V.
    apply andb_true_iff in V. destruct V as [V Hd].
    apply andb_true_iff in V. destruct V as [Hlen Hu].
    rewrite Hlen, Hu, Hd. reflexivity.
  - unfold row_records, row_step.
    destruct (str_eqb (trim line) []); [reflexivity|].
    cbv zeta. fold (field uI line). fold (field dI line).
    rewrite !removeQuotes_field.
    unfold valid_row in V.
    destruct (Z.of_nat (List.length (parseCSVLine line)) >? Z.max uI dI);
      [|reflexivity].
    simpl in V. rewrite V. reflexivity.
Qed.

Lemma split_trim_cons (text : jsstring) :
  split LF (trim text) = first_line text :: tl (split LF (trim text)).
Proof. apply split_hd_tl. Qed.

(** * The claims *)

(** C1 (the code departs from the claim): for every input of white space
    only, the empty string included, [parseCSV] throws the missing-columns
    error and not the empty-file error: [split] returns one empty line, so
    the length test of the lines never fires. *)
Theorem C1_blank_input_throws_missing_columns (text : jsstring) :
  blank text = true ->
  parseCSV text = Throw msg_missing_columns /\
  parseCSV text <> Throw msg_empty.
Proof.
  intros H. unfold parseCSV. rewrite trim_blank by assumption.
  split; [reflexivity|discriminate].
Qed.

Lemma C1_blank_input_witness :
  parseCSV [] = Throw msg_missing_columns /\
  parseCSV (str "  " ++ [LF] ++ str " ") = Throw msg_missing_columns.
Proof.
  split.
  - apply (C1_blank_input_throws_missing_columns []). reflexivity.
  - apply (C1_blank_input_throws_missing_columns (str "  " ++ [LF] ++ str " ")).
    reflexivity.
Defined.

Lemma two_column_row_records (line u d : jsstring) :
  two_column_row line u d ->
  row_records 0 1 line = [mkRecord (trim u) (trim d)].
Proof.
  intros [_ [E [Hu Hd]]].
  rewrite row_records_valid_row. unfold valid_row, field. rewrite E. simpl.
  apply truthy_true in Hu, Hd. rewrite Hu, Hd. reflexivity.
Qed.

(** Two values without comma, quote and line feed, joined by a comma, make
    a row of a two-column file. *)
Lemma two_column_row_plain (u d : jsstring) :
  lacks comma u = true -> lacks dquote u = true -> lacks LF u = true ->
  lacks comma d = true -> lacks dquote d = true -> lacks LF d = true ->
  trim u <> [] -> trim d <> [] ->
  two_column_row (u ++ comma :: d) u d.
Proof.
  intros Hcu Hqu Hlu Hcd Hqd Hld Hu Hd. repeat split; try assumption.
  - rewrite lacks_app, Hlu. simpl. exact Hld.
  - rewrite parseCSVLine_no_quotes
      by (rewrite lacks_app, Hqu; simpl; exact Hqd).
    rewrite (split_app comma u (comma :: d) [] u [] [d]).
    + simpl. rewrite app_nil_r. reflexivity.
    + apply split_lacks; assumption.
    + rewrite split_cons_sep, split_lacks by assumption. reflexivity.
Qed.

Lemma well_formed_rows_records (rows : list csv_row) :
  Forall well_formed_row rows ->
  flat_map (row_records 0 1) (map row_line rows) = map record_of_row rows.
Proof.
  induction 1 as [|r rows Hr _ IH]; [reflexivity|].
  simpl. rewrite IH, (two_column_row_records _ _ _ Hr). reflexivity.
Qed.

Lemma well_formed_row_of_fields (fu fd : list chunk) :
  fields_ok fu fd -> well_formed_row (row_of_fields fu fd).
Proof.
  intros [Hu [Hd [Hlu [Hld [Hvu Hvd]]]]].
  unfold well_formed_row, row_of_fields, two_column_row. simpl.
  repeat split; try assumption.
  - rewrite lacks_app, Hlu. simpl. exact Hld.
  - apply (parseCSVLine_fields fu [fd]). repeat constructor; assumption.
Qed.

Lemma parseCSV_well_formed_rows (rows : list csv_row) :
  Forall well_formed_row rows ->
  parseCSV (join [LF] (str "username,displayName" :: map row_line rows)) =
    Ok (map record_of_row rows).
Proof.
  intros H. rewrite parseCSV_lines.
  - change (findIndex isUsername (headerCells (str "username,displayName")))
      with 0.
    change (findIndex isDisplayName (headerCells (str "username,displayName")))
      with 1.
    rewrite well_formed_rows_records by assumption. reflexivity.
  - constructor; [reflexivity|].
    apply Forall_map. eapply Forall_impl; [|exact H].
    intros r Hr. apply Hr.
  - reflexivity.
Qed.

(** C3: for every two-column text with the header [username,displayName]
    and N data rows that each hold a value in both columns, [parseCSV]
    returns exactly N records, in the order of the rows: for rows given
    by their lines, and so for rows written as two fields of plain and
    quoted pieces.  The two-row example gives the two records of the
    specification, and [formatOutput] joins them as [username@displayName]
    with a comma and a line feed between the rows. *)
Theorem C3_well_formed_rows_in_file_order :
  (forall rows : list csv_row,
      Forall well_formed_row rows ->
      parseCSV (join [LF] (str "username,displayName" :: map row_line rows)) =
        Ok (map record_of_row rows) /\
      List.length (map record_of_row rows) = List.length rows) /\
  (forall rows : list (list chunk * list chunk),
      Forall (fun p => fields_ok (fst p) (snd p)) rows ->
      parseCSV (join [LF]
                  (str "username,displayName" ::
                   map (fun p => field_text (fst p) ++ comma :: field_text (snd p))
                       rows)) =
        Ok (map (fun p => mkRecord (trim (field_value (fst p)))
                                   (trim (field_value (snd p)))) rows)) /\
  parseCSV (join [LF] [str "username,displayName"; str "john_doe,John Doe";
                       str "jane_smith,Jane Smith"]) =
    Ok [mkRecord (str "john_doe") (str "John Doe");
        mkRecord (str "jane_smith") (str "Jane Smith")] /\
  formatOutput [mkRecord (str "john_doe") (str "John Doe");
                mkRecord (str "jane_smith") (str "Jane Smith")] =
    str "john_doe@John Doe," ++ [LF] ++ str "jane_smith@Jane Smith".
Proof.
  split; [|split; [|split; reflexivity]].
  - intros rows H. split; [|apply length_map].
    apply parseCSV_well_formed_rows; assumption.
  - intros rows H.
    pose proof (parseCSV_well_formed_rows
                  (map (fun p => row_of_fields (fst p) (snd p)) rows)) as P.
    rewrite !map_map in P. apply P.
    apply Forall_map. eapply Forall_impl; [|exact H].
    intros [fu fd] Hp. apply well_formed_row_of_fields; assumption.
Qed.

Lemma C3_well_formed_rows_witness :
  parseCSV (join [LF] [str "username,displayName"; str "a, Ann B "; str "c,D"]) =
    Ok [mkRecord (str "a") (str "Ann B"); mkRecord (str "c") (str "D")] /\
  parseCSV (join [LF] [str "username,displayName";
                       dquote :: str "doe, john" ++ dquote :: str ",John Doe"]) =
    Ok [mkRecord (str "doe, john") (str "John Doe")].
Proof.
  assert (H : Forall well_formed_row
                [mkRow (str "a, Ann B ") (str "a") (str " Ann B ");
                 mkRow (str "c,D") (str "c") (str "D")])
    by (repeat constructor; discriminate).
  assert (F : Forall (fun p => fields_ok (fst p) (snd p))
                [([Quoted (str "doe, john")], [Plain (str "John Doe")])])
    by (repeat constructor; discriminate).
  split.
  - exact (proj1 (proj1 C3_well_formed_rows_in_file_order _ H)).
  - exact (proj1 (proj2 C3_well_formed_rows_in_file_order) _ F).
Defined.

Lemma findIndex_leftmost {A : Type} (p : A -> bool) (arr : list A) :
  forall i, leftmost p arr i -> findIndex p arr = Z.of_nat i.
Proof.
  induction arr as [|a arr IH]; intros i [[x [Hx Hp]] Hlt].
  - destruct i; discriminate.
  - simpl. destruct i as [|i].
    + simpl in Hx. injection Hx as ->. rewrite Hp. reflexivity.
    + rewrite (Hlt 0%nat a) by (simpl; auto; lia).
      rewrite (IH i).
      * destruct (Z.of_nat i =? -1) eqn:E; lia.
      * split; [exists x; auto|].
        intros k y Hk Hy. apply (Hlt (S k) y); [lia|exact Hy].
Qed.

Lemma resolved_header (h : jsstring) (uI dI : Z) :
  findIndex isUsername (headerCells h) = uI ->
  findIndex isDisplayName (headerCells h) = dI ->
  uI <> -1 -> dI <> -1 ->
  (findIndex isUsername (headerCells h) =? -1) ||
  (findIndex isDisplayName (headerCells h) =? -1) = false.
Proof.
  intros -> -> Hu Hd. apply orb_false_iff. rewrite !Z.eqb_neq. auto.
Qed.

Lemma lacks_LF_rows_app (h x : jsstring) (before after : list jsstring) :
  Forall (fun l => lacks LF l = true) (h :: before ++ after) ->
  lacks LF x = true ->
  Forall (fun l => lacks LF l = true) (h :: before ++ x :: after).
Proof.
  intros H Hx. inversion H as [|? ? Hh Hr]; subst.
  apply Forall_app in Hr. destruct Hr as [Hb Ha].
  constructor; [assumption|]. apply Forall_app. auto.
Qed.

Lemma lacks_LF_rows_drop (h x : jsstring) (before after : list jsstring) :
  Forall (fun l => lacks LF l = true) (h :: before ++ x :: after) ->
  Forall (fun l => lacks LF l = true) (h :: before ++ after) /\
  lacks LF x = true.
Proof.
  intros H. inversion H as [|? ? Hh Hr]; subst.
  apply Forall_app in Hr. destruct Hr as [Hb Ha].
  inversion Ha; subst. split; [|assumption].
  constructor; [assumption|]. apply Forall_app. auto.
Qed.

Lemma malformed_not_valid (uI dI : Z) (line : jsstring) :
  Z.of_nat (List.length (parseCSVLine line)) <= Z.max uI dI \/
  field uI line = [] \/ field dI line = [] ->
  valid_row uI dI line = false.
Proof.
  unfold valid_row. intros [H | [H | H]].
  - apply Z.leb_le in H. rewrite Z.gtb_ltb, Z.ltb_antisym, H. reflexivity.
  - rewrite H. simpl. rewrite andb_false_r. reflexivity.
  - rewrite H. simpl. rewrite andb_false_r. reflexivity.
Qed.

(** C4: under a header that resolves both columns, a data row with too few
    fields for the two positions, or with an empty value after trimming in
    either column, never makes [parseCSV] throw and adds no record: the
    result is that of the text without the row, and one record shorter
    than that of the text with a valid row in its place, the records of
    the other rows being the same. *)
Theorem C4_malformed_row_is_skipped
    (h bad : jsstring) (before after : list jsstring) (uI dI : Z) :
  Forall (fun l => lacks LF l = true) (h :: before ++ bad :: after) ->
  findIndex isUsername (headerCells h) = uI ->
  findIndex isDisplayName (headerCells h) = dI ->
  uI <> -1 -> dI <> -1 ->
  Z.of_nat (List.length (parseCSVLine bad)) <= Z.max uI dI \/
  field uI bad = [] \/ field dI bad = [] ->
  parseCSV (join [LF] (h :: before ++ bad :: after)) =
    Ok (flat_map (row_records uI dI) before ++
        flat_map (row_records uI dI) after) /\
  parseCSV (join [LF] (h :: before ++ after)) =
    Ok (flat_map (row_records uI dI) before ++
        flat_map (row_records uI dI) after) /\
  forall good : jsstring,
    lacks LF good = true -> valid_row uI dI good = true ->
    parseCSV (join [LF] (h :: before ++ good :: after)) =
      Ok (flat_map (row_records uI dI) before ++
          mkRecord (field uI good) (field dI good) ::
          flat_map (row_records uI dI) after) /\
    List.length (flat_map (row_records uI dI) before ++
                 mkRecord (field uI good) (field dI good) ::
                 flat_map (row_records uI dI) after) =
    S (List.length (flat_map (row_records uI dI) before ++
                    flat_map (row_records uI dI) after)).
Proof.
  intros Hl Hu Hd Hu1 Hd1 Hbad.
  pose proof (resolved_header h uI dI Hu Hd Hu1 Hd1) as Hres.
  destruct (lacks_LF_rows_drop _ _ _ _ Hl) as [Hl' _].
  apply malformed_not_valid in Hbad.
  split; [|split].
  - rewrite parseCSV_lines by assumption. rewrite Hu, Hd.
    rewrite flat_map_app. simpl.
    rewrite (row_records_valid_row uI dI bad), Hbad. reflexivity.
  - rewrite parseCSV_lines by assumption. rewrite Hu, Hd.
    rewrite flat_map_app. reflexivity.
  - intros good Hg Hv. split.
    + rewrite parseCSV_lines
        by (try apply lacks_LF_rows_app; assumption).
      rewrite Hu, Hd, flat_map_app. simpl.
      rewrite (row_records_valid_row uI dI good), Hv. reflexivity.
    + rewrite !length_app. simpl. lia.
Qed.

Lemma C4_malformed_row_witness :
  parseCSV (join [LF] [str "username,displayName"; str "a,A"; str "b,  ";
                       str "c,C"]) =
    Ok [mkRecord (str "a") (str "A"); mkRecord (str "c") (str "C")] /\
  parseCSV (join [LF] [str "username,displayName"; str "a,A"; str "c,C"]) =
    Ok [mkRecord (str "a") (str "A"); mkRecord (str "c") (str "C")] /\
  parseCSV (join [LF] [str "username,displayName"; str "a,A"; str "b,B";
                       str "c,C"]) =
    Ok [mkRecord (str "a") (str "A"); mkRecord (str "b") (str "B");
        mkRecord (str "c") (str "C")].
Proof.
  assert (Hl : Forall (fun l => lacks LF l = true)
                 (str "username,displayName" :: [str "a,A"] ++ str "b,  " :: [str "c,C"]))
    by (repeat constructor).
  assert (Hbad : Z.of_nat (List.length (parseCSVLine (str "b,  "))) <= Z.max 0 1 \/
                 field 0 (str "b,  ") = [] \/ field 1 (str "b,  ") = [])
    by (right; right; reflexivity).
  assert (H0 : 0 <> -1) by discriminate.
  assert (H1 : 1 <> -1) by discriminate.
  pose proof (C4_malformed_row_is_skipped
                (str "username,displayName") (str "b,  ") [str "a,A"] [str "c,C"]
                0 1 Hl eq_refl eq_refl H0 H1 Hbad) as [Ha [Hb Hc]].
  split; [exact Ha|split; [exact Hb|]].
  exact (proj1 (Hc (str "b,B") eq_refl eq_refl)).
Defined.

Lemma flat_map_invalid_rows (uI dI : Z) (rows : list jsstring) :
  Forall (fun r => valid_row uI dI r = false) rows ->
  flat_map (row_records uI dI) rows = [].
Proof.
  induction 1 as [|r rows Hr _ IH]; [reflexivity|].
  simpl. rewrite IH, row_records_valid_row, Hr. reflexivity.
Qed.

(** C8: when the header resolves both columns and no data row is valid,
    [parseCSV] returns the empty array and does not throw; the loader
    reports that case with a message of its own, different from the two
    messages [parseCSV] throws; and whenever [parseCSV] throws, the loader
    keeps no record and no output text. *)
Theorem C8_no_valid_row_returns_empty :
  (forall (h : jsstring) (rows : list jsstring) (uI dI : Z),
      Forall (fun l => lacks LF l = true) (h :: rows) ->
      findIndex isUsername (headerCells h) = uI ->
      findIndex isDisplayName (headerCells h) = dI ->
      uI <> -1 -> dI <> -1 ->
      Forall (fun r => valid_row uI dI r = false) rows ->
      parseCSV (join [LF] (h :: rows)) = Ok [] /\
      forall st, error (onload st (join [LF] (h :: rows))) = msg_no_rows) /\
  Ok [] <> Throw msg_empty /\
  Ok [] <> Throw msg_missing_columns /\
  msg_no_rows <> msg_empty /\
  msg_no_rows <> msg_missing_columns /\
  (forall (text message : jsstring) (st : ui_state),
      parseCSV text = Throw message ->
      parsedData (onload st text) = [] /\
      outputText (onload st text) = [] /\
      error (onload st text) = message).
Proof.
  split; [|repeat split; try discriminate].
  - intros h rows uI dI Hl Hu Hd Hu1 Hd1 Hrows.
    assert (E : parseCSV (join [LF] (h :: rows)) = Ok []).
    { rewrite parseCSV_lines
        by (try apply (resolved_header h uI dI); assumption).
      rewrite Hu, Hd, flat_map_invalid_rows by assumption. reflexivity. }
    split; [exact E|]. intros st. unfold onload. rewrite E. reflexivity.
  - unfold onload. rewrite H. reflexivity.
  - unfold onload. rewrite H. reflexivity.
  - unfold onload. rewrite H. reflexivity.
Qed.

Lemma C8_no_valid_row_witness :
  parseCSV (join [LF] [str "username,displayName"; str "a"; str ",B"; str " , "]) =
    Ok [].
Proof.
  assert (Hl : Forall (fun l => lacks LF l = true)
                 [str "username,displayName"; str "a"; str ",B"; str " , "])
    by (repeat constructor).
  assert (Hr : Forall (fun r => valid_row 0 1 r = false)
                 [str "a"; str ",B"; str " , "])
    by (repeat constructor).
  assert (H0 : 0 <> -1) by discriminate.
  assert (H1 : 1 <> -1) by discriminate.
  exact (proj1 (proj1 C8_no_valid_row_returns_empty
                  (str "username,displayName") [str "a"; str ",B"; str " , "]
                  0 1 Hl eq_refl eq_refl H0 H1 Hr)).
Defined.

(** C10: when several header cells resolve to one role, the leftmost of
    them gives the role its position: [parseCSV] succeeds and reads every
    row at the leftmost [username] cell and the leftmost displayName cell;
    with two [username] cells and both [display_name] and [display name],
    the first of each is read. *)
Theorem C10_leftmost_header_cell_wins :
  (forall (h : jsstring) (rows : list jsstring) (i j : nat),
      Forall (fun l => lacks LF l = true) (h :: rows) ->
      leftmost isUsername (headerCells h) i ->
      leftmost isDisplayName (headerCells h) j ->
      parseCSV (join [LF] (h :: rows)) =
        Ok (flat_map (row_records (Z.of_nat i) (Z.of_nat j)) rows)) /\
  parseCSV (join [LF] [str "username,username,display_name,display name";
                       str "a,b,C,D"]) =
    Ok [mkRecord (str "a") (str "C")].
Proof.
  split; [|reflexivity].
  intros h rows i j Hl Hi Hj.
  apply findIndex_leftmost in Hi, Hj.
  rewrite parseCSV_lines; [rewrite Hi, Hj; reflexivity|assumption|].
  rewrite Hi, Hj. apply orb_false_iff. rewrite !Z.eqb_neq. lia.
Qed.

Lemma C10_leftmost_header_cell_witness :
  parseCSV (join [LF] [str "id,Display Name,USERNAME,username,displayname";
                       str "1,Ann,ann1,ann2,Bob"; str "2,Cy,cy1,cy2,Di"]) =
    Ok [mkRecord (str "ann1") (str "Ann"); mkRecord (str "cy1") (str "Cy")].
Proof.
  assert (Hl : Forall (fun l => lacks LF l = true)
                 [str "id,Display Name,USERNAME,username,displayname";
                  str "1,Ann,ann1,ann2,Bob"; str "2,Cy,cy1,cy2,Di"])
    by (repeat constructor).
  assert (E : headerCells (str "id,Display Name,USERNAME,username,displayname") =
              [str "id"; str "display name"; str "username"; str "username";
               str "displayname"])
    by (vm_compute; reflexivity).
  assert (Hi : leftmost isUsername
                 (headerCells (str "id,Display Name,USERNAME,username,displayname"))
                 2).
  { rewrite E. split; [eexists; split; reflexivity|].
    intros [|[|k]] x Hk Hx; [| |lia]; injection Hx as <-; reflexivity. }
  assert (Hj : leftmost isDisplayName
                 (headerCells (str "id,Display Name,USERNAME,username,displayname"))
                 1).
  { rewrite E. split; [eexists; split; reflexivity|].
    intros [|k] x Hk Hx; [|lia]; injection Hx as <-; reflexivity. }
  exact (proj1 C10_leftmost_header_cell_wins _ _ 2%nat 1%nat Hl Hi Hj).
Defined.

(** C7: the tokenizer follows the rules of the specification (a quote
    toggles the flag and is dropped, a comma ends the field outside quotes
    and is kept inside, the final buffer is returned as the last field,
    empty or not); so a line written field by field, with commas between
    the fields and quotes around pieces that may hold commas, gives back
    the values of its fields; the line with the quoted [doe, john] gives
    exactly the two fields [doe, john] and [John Doe]. *)
Theorem C7_tokenizer_splits_outside_quotes :
  (forall line : jsstring,
      exists st, tok_run tok_init line st /\
                 parseCSVLine line = result st ++ [current st]) /\
  (forall (f : list chunk) (fs : list (list chunk)),
      Forall (Forall (fun c => chunk_ok c = true)) (f :: fs) ->
      parseCSVLine (join [comma] (map field_text (f :: fs))) =
        map field_value (f :: fs)) /\
  parseCSVLine (dquote :: str "doe, john" ++ dquote :: str ",John Doe") =
    [str "doe, john"; str "John Doe"] /\
  parseCSVLine (str "a,") = [str "a"; []].
Proof.
  split; [|split; [|split; reflexivity]].
  - intros line. exists (tok_scan tok_init line).
    split; [apply tok_run_scan|reflexivity].
  - intros f fs H. apply parseCSVLine_fields; assumption.
Qed.

Lemma C7_tokenizer_witness :
  parseCSVLine (str "x" ++ dquote :: str "a,b" ++ dquote :: str "y,,z") =
    [str "xa,by"; []; str "z"].
Proof.
  assert (H : Forall (Forall (fun c => chunk_ok c = true))
                [[Plain (str "x"); Quoted (str "a,b"); Plain (str "y")];
                 []; [Plain (str "z")]])
    by (repeat constructor).
  exact (proj1 (proj2 C7_tokenizer_splits_outside_quotes) _ _ H).
Defined.

(** * Casing of the header *)

Lemma toLowerChar_toUpperChar (a : ascii) :
  toLowerChar a = a -> toLowerChar (toUpperChar a) = a.
Proof. ascii_cases a; vm_compute; congruence. Qed.

Lemma toLowerCase_casing (x s : jsstring) :
  casing_of x s -> toLowerCase x = x -> toLowerCase s = x.
Proof.
  induction 1 as [|a b x s Hab _ IH]; [reflexivity|].
  simpl. intros E. injection E as Ea Ex.
  rewrite IH by assumption. f_equal.
  destruct Hab as [-> | ->]; [assumption|].
  apply toLowerChar_toUpperChar; assumption.
Qed.

Lemma toLowerCase_app (a b : jsstring) :
  toLowerCase (a ++ b) = toLowerCase a ++ toLowerCase b.
Proof. apply map_app. Qed.

Lemma toLowerCase_cell_text (w1 w2 x s : jsstring) (q : bool) :
  toLowerCase s = x ->
  toLowerCase (cell_text w1 q s w2) =
  cell_text (toLowerCase w1) q x (toLowerCase w2).
Proof.
  intros <-. unfold cell_text. rewrite !toLowerCase_app.
  destruct q; [|reflexivity].
  simpl. rewrite toLowerCase_app. reflexivity.
Qed.

Lemma headerCells_two_cells (c1 c2 : jsstring) :
  lacks comma (toLowerCase c1) = true ->
  lacks comma (toLowerCase c2) = true ->
  headerCells (c1 ++ comma :: c2) =
  [removeQuotes (trim (toLowerCase c1)); removeQuotes (trim (toLowerCase c2))].
Proof.
  intros H1 H2. unfold headerCells. rewrite toLowerCase_app.
  change (toLowerCase (comma :: c2)) with (comma :: toLowerCase c2).
  rewrite (split_app comma _ _ [] (toLowerCase c1) [] [toLowerCase c2]).
  - simpl. rewrite app_nil_r. reflexivity.
  - apply split_lacks; assumption.
  - rewrite split_cons_sep, split_lacks by assumption. reflexivity.
Qed.

Lemma lacks_cell_text (c : ascii) (w1 w2 x : jsstring) (q : bool) :
  lacks c w1 = true -> lacks c w2 = true -> lacks c x = true ->
  Ascii.eqb dquote c = false ->
  lacks c (cell_text w1 q x w2) = true.
Proof.
  intros H1 H2 Hx Hq. unfold cell_text. rewrite !lacks_app, H1, H2.
  destruct q; [|rewrite Hx; reflexivity].
  change (dquote :: x ++ [dquote]) with ([dquote] ++ x ++ [dquote]).
  rewrite !lacks_app, Hx. unfold lacks. cbn [forallb].
  rewrite Hq. reflexivity.
Qed.

Lemma trim_cell_text (w1 w2 x : jsstring) (q : bool) :
  blank w1 = true -> blank w2 = true ->
  trim (cell_text w1 q x w2) = trim (if q then dquote :: x ++ [dquote] else x).
Proof.
  intros H1 H2. unfold cell_text.
  rewrite trim_app_blank_l, trim_app_blank_r by assumption. reflexivity.
Qed.

(** A role name in any casing, in quotes or not, with white space around,
    is read back as the role name. *)
Lemma header_cell_normalized (name s w1 w2 : jsstring) (q : bool) :
  In name (str "username" :: displayName_spellings) ->
  casing_of name s -> blank w1 = true -> blank w2 = true ->
  lacks comma (toLowerCase (cell_text w1 q s w2)) = true /\
  removeQuotes (trim (toLowerCase (cell_text w1 q s w2))) = name.
Proof.
  intros Hin Hs H1 H2.
  assert (Hlow : toLowerCase name = name).
  { simpl in Hin. destruct Hin as [<- | [<- | [<- | [<- | []]]]]; reflexivity. }
  rewrite (toLowerCase_cell_text w1 w2 name s q)
    by (apply toLowerCase_casing; assumption).
  rewrite trim_cell_text by (rewrite blank_toLowerCase; assumption).
  split.
  - apply lacks_cell_text;
      try (apply blank_lacks_comma; rewrite blank_toLowerCase; assumption);
      [|reflexivity].
    simpl in Hin. destruct Hin as [<- | [<- | [<- | [<- | []]]]]; reflexivity.
  - simpl in Hin.
    destruct Hin as [<- | [<- | [<- | [<- | []]]]]; destruct q; reflexivity.
Qed.

Lemma lacks_comma_toLowerCase (s : jsstring) :
  lacks comma (toLowerCase s) = lacks comma s.
Proof.
  induction s as [|c s IH]; [reflexivity|].
  simpl. rewrite toLowerChar_comma, IH. reflexivity.
Qed.

Lemma toLowerCase_tail_text (rest : list jsstring) :
  toLowerCase (tail_text comma rest) = tail_text comma (map toLowerCase rest).
Proof.
  induction rest as [|r rest IH]; [reflexivity|].
  simpl. rewrite toLowerCase_app, IH. reflexivity.
Qed.

(** A header whose cells hold no comma is split into these cells. *)
Lemma headerCells_join (cells : list jsstring) :
  cells <> [] ->
  Forall (fun c => lacks comma c = true) cells ->
  headerCells (join [comma] cells) =
  map (fun c => removeQuotes (trim (toLowerCase c))) cells.
Proof.
  destruct cells as [|c cells]; [congruence|]. intros _ H.
  inversion H as [|? ? Hc Hcells]; subst.
  unfold headerCells.
  rewrite join_cons, toLowerCase_app, toLowerCase_tail_text, split_tail_text.
  - simpl. rewrite map_map. reflexivity.
  - rewrite lacks_comma_toLowerCase. assumption.
  - apply Forall_map. eapply Forall_impl; [|exact Hcells].
    intros a Ha. simpl. rewrite lacks_comma_toLowerCase. assumption.
Qed.

(** C6: the header is resolved without regard to case, after trimming and
    de-quoting each cell.  At any position of a header, a role name in any
    casing, in quotes or not and with white space around, is read as the
    role name in lower case, which the test of its role accepts:
    [username] for the username column, [displayname], [display_name] and
    [display name] for the displayName column.  So a header of such two
    cells resolves both columns; [Username,Display_Name] does. *)
Theorem C6_header_matching_ignores_case :
  (forall (cells : list jsstring) (i : nat)
          (name s w1 w2 : jsstring) (q : bool),
      Forall (fun c => lacks comma c = true) cells ->
      nth_error cells i = Some (cell_text w1 q s w2) ->
      In name (str "username" :: displayName_spellings) ->
      casing_of name s -> blank w1 = true -> blank w2 = true ->
      nth_error (headerCells (join [comma] cells)) i = Some name) /\
  isUsername (str "username") = true /\
  Forall (fun name => isDisplayName name = true) displayName_spellings /\
  (forall (u d name w1 w2 w3 w4 : jsstring) (q1 q2 : bool),
      casing_of (str "username") u ->
      In name displayName_spellings -> casing_of name d ->
      blank w1 = true -> blank w2 = true ->
      blank w3 = true -> blank w4 = true ->
      findIndex isUsername
        (headerCells (cell_text w1 q1 u w2 ++ comma :: cell_text w3 q2 d w4)) = 0 /\
      findIndex isDisplayName
        (headerCells (cell_text w1 q1 u w2 ++ comma :: cell_text w3 q2 d w4)) = 1) /\
  headerCells (str "Username,Display_Name") =
    [str "username"; str "display_name"] /\
  parseCSV (join [LF] [str "Username,Display_Name"; str "john_doe,John Doe"]) =
    Ok [mkRecord (str "john_doe") (str "John Doe")].
Proof.
  split; [|split; [reflexivity|split; [repeat constructor|split;
          [|split; reflexivity]]]].
  - intros cells i name s w1 w2 q Hcells Hi Hin Hs H1 H2.
    rewrite headerCells_join, nth_error_map, Hi;
      [|intros ->; destruct i; discriminate|assumption].
    simpl. f_equal. apply header_cell_normalized; assumption.
  - intros u d name w1 w2 w3 w4 q1 q2 Hu Hin Hd H1 H2 H3 H4.
    destruct (header_cell_normalized (str "username") u w1 w2 q1)
      as [Hc1 Hn1]; try assumption; [left; reflexivity|].
    destruct (header_cell_normalized name d w3 w4 q2)
      as [Hc2 Hn2]; try assumption; [right; assumption|].
    rewrite headerCells_two_cells, Hn1, Hn2 by assumption.
    simpl in Hin. destruct Hin as [<- | [<- | [<- | []]]]; split; reflexivity.
Qed.

Lemma C6_header_matching_witness :
  nth_error
    (headerCells (join [comma] [str "id"; str " UserName ";
                                dquote :: str "DISPLAY name" ++ [dquote]]))
    2 = Some (str "display name") /\
  findIndex isUsername
    (headerCells (str " UserName " ++ comma :: dquote :: str "DISPLAY name" ++ [dquote])) = 0.
Proof.
  assert (Hu : casing_of (str "username") (str "UserName"))
    by (repeat constructor).
  assert (Hd : casing_of (str "display name") (str "DISPLAY name"))
    by (repeat (constructor; [first [left; reflexivity | right; reflexivity]|]);
        constructor).
  assert (Hin : In (str "display name") displayName_spellings)
    by (right; right; left; reflexivity).
  assert (Hin' : In (str "display name") (str "username" :: displayName_spellings))
    by (right; exact Hin).
  assert (Hc : Forall (fun c => lacks comma c = true)
                 [str "id"; str " UserName ";
                  dquote :: str "DISPLAY name" ++ [dquote]])
    by (repeat constructor).
  split.
  - exact (proj1 C6_header_matching_ignores_case _ 2%nat
             (str "display name") (str "DISPLAY name") [] [] true
             Hc eq_refl Hin' Hd eq_refl eq_refl).
  - exact (proj1 (proj1 (proj2 (proj2 (proj2 C6_header_matching_ignores_case)))
                    (str "UserName") (str "DISPLAY name") (str "display name")
                    (str " ") (str " ") [] [] false true
                    Hu Hin Hd eq_refl eq_refl eq_refl eq_refl)).
Defined.

(** * The rules of the tokenizer and the loader leave one outcome *)

Lemma tok_run_deterministic (st : tok_state) (line : jsstring) (s1 s2 : tok_state) :
  tok_run st line s1 -> tok_run st line s2 -> s1 = s2.
Proof.
  intros H1 H2. apply tok_run_sound in H1, H2. congruence.
Qed.

Lemma onload_state_independent (s1 s2 : ui_state) (text : jsstring) :
  parsedData (onload s1 text) = parsedData (onload s2 text) /\
  outputText (onload s1 text) = outputText (onload s2 text) /\
  error (onload s1 text) = error (onload s2 text).
Proof.
  unfold onload. destruct (parseCSV text) as [[|r data] | message];
    repeat split; reflexivity.
Qed.

(** * The header against the tokenizer *)

(** A header without double quotes is split the same way by both: the
    plain split of the code and the tokenizer give the same fields. *)
Lemma headerCells_tokenized_no_quotes (line0 : jsstring) :
  lacks dquote line0 = true ->
  headerCells_tokenized line0 =
  map (fun h => removeQuotes (trim (toLowerCase h))) (split comma line0).
Proof.
  intros H. unfold headerCells_tokenized.
  rewrite parseCSVLine_no_quotes by assumption. reflexivity.
Qed.

(** C2 (the code departs from the claim): the header is split at every
    comma, quoted or not, and not by the tokenizer.  The header whose
    first cell is the quoted [username,x] gives three cells to the code
    and two to the tokenizer; and under a header whose first cell is the
    quoted [name, full], the code looks for the two values one column too
    far to the right and drops a row that the tokenized header would
    read. *)
Theorem C2_header_is_split_at_every_comma :
  headerCells (dquote :: str "username,x" ++ dquote :: str ",displayName") =
    [str "username"; str "x"; str "displayname"] /\
  headerCells_tokenized
    (dquote :: str "username,x" ++ dquote :: str ",displayName") =
    [str "username,x"; str "displayname"] /\
  parseCSVLine (dquote :: str "a,b" ++ dquote :: str ",c") =
    [str "a,b"; str "c"] /\
  parseCSV (join [LF]
              [dquote :: str "name, full" ++ dquote :: str ",username,displayName";
               dquote :: str "Doe, John" ++ dquote :: str ",jdoe,John Doe"]) =
    Ok [] /\
  (let h := dquote :: str "name, full" ++ dquote :: str ",username,displayName" in
   findIndex isUsername (headerCells h) = 2 /\
   findIndex isDisplayName (headerCells h) = 3 /\
   findIndex isUsername (headerCells_tokenized h) = 1 /\
   findIndex isDisplayName (headerCells_tokenized h) = 2) /\
  row_records 1 2 (dquote :: str "Doe, John" ++ dquote :: str ",jdoe,John Doe") =
    [mkRecord (str "jdoe") (str "John Doe")].
Proof. repeat split; reflexivity. Qed.

Lemma split_toLowerCase (s : jsstring) :
  split comma (toLowerCase s) = map toLowerCase (split comma s).
Proof.
  induction s as [|c s IH]; [reflexivity|].
  simpl. rewrite toLowerChar_comma, IH.
  destruct (Ascii.eqb c comma); [reflexivity|].
  rewrite (split_hd_tl comma s). reflexivity.
Qed.

(** On a header without double quotes the cells the code reads are the
    cells of the tokenized header. *)
Lemma headerCells_tokenized_eq (line0 : jsstring) :
  lacks dquote line0 = true ->
  headerCells_tokenized line0 = headerCells line0.
Proof.
  intros H. rewrite headerCells_tokenized_no_quotes by assumption.
  unfold headerCells. rewrite split_toLowerCase, map_map. reflexivity.
Qed.

Lemma findIndex_none {A : Type} (p : A -> bool) (arr : list A) :
  (forall x, In x arr -> p x = false) -> findIndex p arr = -1.
Proof.
  induction arr as [|a arr IH]; intros H; [reflexivity|].
  simpl. rewrite (H a) by (left; reflexivity).
  rewrite IH by (intros x Hx; apply H; right; exact Hx). reflexivity.
Qed.

Lemma no_username_column (cells : list jsstring) :
  ~ has_username_column cells -> findIndex isUsername cells = -1.
Proof.
  intros H. apply findIndex_none. intros x Hx.
  destruct (isUsername x) eqn:E; [|reflexivity].
  apply str_eqb_eq in E. subst x. contradiction.
Qed.

Lemma no_displayName_column (cells : list jsstring) :
  ~ has_displayName_column cells -> findIndex isDisplayName cells = -1.
Proof.
  intros H. apply findIndex_none. intros x Hx.
  destruct (isDisplayName x) eqn:E; [|reflexivity].
  exfalso. apply H. exists x. split; [|exact Hx].
  unfold isDisplayName in E.
  apply orb_true_iff in E. destruct E as [E | E];
    [apply orb_true_iff in E; destruct E as [E | E]|];
    apply str_eqb_eq in E; subst x; simpl; auto.
Qed.

Lemma missing_column_unresolved (cells : list jsstring) :
  ~ has_username_column cells \/ ~ has_displayName_column cells ->
  (findIndex isUsername cells =? -1) || (findIndex isDisplayName cells =? -1) = true.
Proof.
  intros [H | H].
  - rewrite (no_username_column cells H). reflexivity.
  - rewrite (no_displayName_column cells H). apply orb_true_r.
Qed.

(** C5 (the code departs from the claim, by the defect of C2): whether the
    header row has the two columns is decided on the cells of the plain
    split, not on those of the tokenizer.  Where the header row holds no
    double quote the two agree, and every input that is not blank and
    whose header lacks the [username] column or the displayName column,
    whatever other columns it has, throws the missing-columns error,
    whose message names [username] and [displayName]; the input
    [username,email / foo,bar@x.com] does.  But under the header whose
    first cell is the quoted [x,username], which has no [username]
    column, [parseCSV] does not throw: it reads the row [a,b,c] as the
    record of [b] and [c]. *)
Theorem C5_missing_columns_error_and_quoted_header :
  (forall (h : jsstring) (rows : list jsstring),
      Forall (fun l => lacks LF l = true) (h :: rows) ->
      blank h = false -> lacks dquote h = true ->
      ~ has_username_column (headerCells_tokenized h) \/
      ~ has_displayName_column (headerCells_tokenized h) ->
      parseCSV (join [LF] (h :: rows)) = Throw msg_missing_columns) /\
  (forall text : jsstring,
      blank text = false -> lacks dquote (first_line text) = true ->
      ~ has_username_column (headerCells_tokenized (first_line text)) \/
      ~ has_displayName_column (headerCells_tokenized (first_line text)) ->
      parseCSV text = Throw msg_missing_columns) /\
  includes msg_missing_columns (str "username") = true /\
  includes msg_missing_columns (str "displayName") = true /\
  parseCSV (join [LF] [str "username,email"; str "foo,bar@x.com"]) =
    Throw msg_missing_columns /\
  headerCells_tokenized (dquote :: str "x,username" ++ dquote :: str ",displayName") =
    [str "x,username"; str "displayname"] /\
  ~ has_username_column
      (headerCells_tokenized (dquote :: str "x,username" ++ dquote :: str ",displayName")) /\
  parseCSV (join [LF] [dquote :: str "x,username" ++ dquote :: str ",displayName";
                       str "a,b,c"]) =
    Ok [mkRecord (str "b") (str "c")].
Proof.
  split; [|split; [|repeat split; try reflexivity]].
  - intros h rows Hl Hb Hq Hmiss.
    rewrite headerCells_tokenized_eq in Hmiss by assumption.
    apply parseCSV_lines_missing; try assumption.
    apply missing_column_unresolved; assumption.
  - intros text _ Hq Hmiss.
    rewrite headerCells_tokenized_eq in Hmiss by assumption.
    apply missing_column_unresolved in Hmiss.
    unfold parseCSV. rewrite split_trim_cons, Hmiss. reflexivity.
  - unfold has_username_column. vm_compute.
    intros [H | [H | []]]; discriminate.
Qed.

Lemma C5_missing_columns_witness :
  parseCSV (join [LF] [str "ID,Username,Email,Phone"; str "1,foo,bar@x.com,5"]) =
    Throw msg_missing_columns.
Proof.
  assert (Hl : Forall (fun l => lacks LF l = true)
                 [str "ID,Username,Email,Phone"; str "1,foo,bar@x.com,5"])
    by (repeat constructor).
  assert (E : headerCells_tokenized (str "ID,Username,Email,Phone") =
              [str "id"; str "username"; str "email"; str "phone"])
    by (vm_compute; reflexivity).
  assert (Hmiss : ~ has_username_column (headerCells_tokenized (str "ID,Username,Email,Phone")) \/
                  ~ has_displayName_column (headerCells_tokenized (str "ID,Username,Email,Phone"))).
  { right. rewrite E. intros [name [Hn Hc]].
    simpl in Hn. destruct Hn as [<- | [<- | [<- | []]]];
      simpl in Hc; repeat (destruct Hc as [Hc | Hc]; [discriminate|]);
      exact Hc. }
  exact (proj1 C5_missing_columns_error_and_quoted_header _ _ Hl eq_refl eq_refl Hmiss).
Defined.

(** * Further properties of the code *)

Lemma trim_idem (s : jsstring) : trim (trim s) = trim s.
Proof.
  unfold trim at 2. rewrite trim_trimEnd, trim_trimStart. reflexivity.
Qed.

Lemma parseCSV_Ok_rows (text : jsstring) (data : list Record_) :
  parseCSV text = Ok data ->
  exists uI dI,
    data = flat_map (row_records uI dI) (tl (split LF (trim text))).
Proof.
  unfold parseCSV. rewrite split_trim_cons. simpl tl.
  destruct ((_ =? -1) || (_ =? -1)); [discriminate|].
  intros H. injection H as <-. rewrite fold_row_step. simpl app. eauto.
Qed.

(** The empty-file error is never thrown: [split] returns at least one
    line, so the length test that guards it is dead code. *)
Theorem parseCSV_never_throws_empty_file (text : jsstring) :
  parseCSV text <> Throw msg_empty.
Proof.
  unfold parseCSV. rewrite split_trim_cons.
  destruct ((_ =? -1) || (_ =? -1)); discriminate.
Qed.

(** Every record [parseCSV] returns has a username and a displayName that
    are not empty, carry no white space at either end and hold no double
    quote. *)
Theorem parseCSV_records_are_trimmed_and_not_empty
    (text : jsstring) (data : list Record_) (r : Record_) :
  parseCSV text = Ok data -> In r data ->
  username r <> [] /\ displayName r <> [] /\
  trim (username r) = username r /\ trim (displayName r) = displayName r /\
  lacks dquote (username r) = true /\ lacks dquote (displayName r) = true.
Proof.
  intros H Hin. destruct (parseCSV_Ok_rows _ _ H) as [uI [dI ->]].
  apply in_flat_map in Hin. destruct Hin as [line [_ Hr]].
  rewrite row_records_valid_row in Hr.
  destruct (valid_row uI dI line) eqn:V; [|contradiction].
  destruct Hr as [<- | []]. simpl.
  unfold valid_row in V.
  apply andb_true_iff in V. destruct V as [V Hd].
  apply andb_true_iff in V. destruct V as [_ Hu].
  apply truthy_true in Hu, Hd.
  repeat split; try assumption.
  - unfold field. apply trim_idem.
  - unfold field. apply trim_idem.
  - rewrite <- (removeQuotes_field uI line) at 1.
    apply removeQuotes_lacks_dquote.
  - rewrite <- (removeQuotes_field dI line) at 1.
    apply removeQuotes_lacks_dquote.
Qed.

Lemma parseCSV_records_witness :
  str "john_doe" <> [] /\ str "John Doe" <> [] /\
  trim (str "john_doe") = str "john_doe" /\
  trim (str "John Doe") = str "John Doe" /\
  lacks dquote (str "john_doe") = true /\ lacks dquote (str "John Doe") = true.
Proof.
  apply (parseCSV_records_are_trimmed_and_not_empty
           (join [LF] [str "username,displayName"; str " john_doe , John Doe "])
           [mkRecord (str "john_doe") (str "John Doe")]
           (mkRecord (str "john_doe") (str "John Doe"))).
  - reflexivity.
  - left. reflexivity.
Defined.

(** The tokenizer returns at least one field for every line, and no field
    holds a double quote: the de-quoting of the two values of a row
    changes nothing. *)
Theorem parseCSVLine_total_and_quote_free (line : jsstring) :
  parseCSVLine line <> [] /\
  Forall (fun f => lacks dquote f = true) (parseCSVLine line) /\
  forall k, removeQuotes (trim (nth k (parseCSVLine line) [])) =
            trim (nth k (parseCSVLine line) []).
Proof.
  split; [apply parseCSVLine_not_nil|].
  split; [apply parseCSVLine_lacks_dquote|].
  intros k. rewrite <- (Nat2Z.id k). apply removeQuotes_field.
Qed.

(** On a line without double quotes the tokenizer is the plain split at
    the commas: there the header path and the data row
    path of [parseCSV] cut a line the same way. *)
Theorem parseCSVLine_is_split_without_quotes (line : jsstring) :
  lacks dquote line = true ->
  parseCSVLine line = split comma line /\
  headerCells_tokenized line =
    map (fun h => removeQuotes (trim (toLowerCase h))) (split comma line).
Proof.
  intros H. split.
  - apply parseCSVLine_no_quotes; assumption.
  - apply headerCells_tokenized_no_quotes; assumption.
Qed.

Lemma parseCSVLine_is_split_witness :
  parseCSVLine (str "a,,b c,") = split comma (str "a,,b c,").
Proof.
  apply (proj1 (parseCSVLine_is_split_without_quotes (str "a,,b c,") eq_refl)).
Defined.

(** * The extractor on whole files *)

Lemma parseCSV_trim_eq (text1 text2 : jsstring) :
  trim text1 = trim text2 -> parseCSV text1 = parseCSV text2.
Proof. intros H. unfold parseCSV. rewrite H. reflexivity. Qed.

Lemma flat_map_row_records_filter (uI dI : Z) (rows : list jsstring) :
  flat_map (row_records uI dI) rows =
  map (fun l => mkRecord (field uI l) (field dI l))
      (filter (valid_row uI dI) rows).
Proof.
  induction rows as [|r rows IH]; [reflexivity|].
  simpl. rewrite row_records_valid_row, IH.
  destruct (valid_row uI dI r); reflexivity.
Qed.

(** What [parseCSV] returns for a file given by its lines, whatever the
    place of the two columns in the header and whatever other columns
    there are: the rows whose fields cover both positions and hold a value
    in both, in file order, each as the pair of its two trimmed values. *)
Theorem parseCSV_returns_the_valid_rows
    (h : jsstring) (rows : list jsstring) (uI dI : Z) :
  Forall (fun l => lacks LF l = true) (h :: rows) ->
  findIndex isUsername (headerCells h) = uI ->
  findIndex isDisplayName (headerCells h) = dI ->
  uI <> -1 -> dI <> -1 ->
  parseCSV (join [LF] (h :: rows)) =
    Ok (map (fun l => mkRecord (field uI l) (field dI l))
            (filter (valid_row uI dI) rows)).
Proof.
  intros Hl Hu Hd Hu1 Hd1.
  rewrite parseCSV_lines
    by (try apply (resolved_header h uI dI); assumption).
  rewrite Hu, Hd. f_equal. apply flat_map_row_records_filter.
Qed.

Lemma parseCSV_returns_the_valid_rows_witness :
  parseCSV (join [LF] [str "id,displayName,email,username"; str "1,Ann,a@x.org,ann";
                       str "2,,b@x.org,bob"; str "3,Cy"; str "4,Di,d@x.org,di"]) =
    Ok [mkRecord (str "ann") (str "Ann"); mkRecord (str "di") (str "Di")].
Proof.
  assert (Hl : Forall (fun l => lacks LF l = true)
                 [str "id,displayName,email,username"; str "1,Ann,a@x.org,ann";
                  str "2,,b@x.org,bob"; str "3,Cy"; str "4,Di,d@x.org,di"])
    by (repeat constructor).
  assert (H3 : 3 <> -1) by discriminate.
  assert (H1 : 1 <> -1) by discriminate.
  exact (parseCSV_returns_the_valid_rows _ _ 3 1 Hl eq_refl eq_refl H3 H1).
Defined.

(** White space around the whole text, such as the line feed that ends a
    file or blank lines before the header, changes nothing. *)
Theorem parseCSV_ignores_blank_around_text (w1 text w2 : jsstring) :
  blank w1 = true -> blank w2 = true ->
  parseCSV (w1 ++ text ++ w2) = parseCSV text.
Proof.
  intros H1 H2. apply parseCSV_trim_eq.
  rewrite trim_app_blank_l, trim_app_blank_r by assumption. reflexivity.
Qed.

Lemma parseCSV_ignores_blank_around_text_witness :
  parseCSV ([LF] ++ str "username,displayName" ++ LF :: str "a,b" ++ [CR; LF; LF]) =
  parseCSV (str "username,displayName" ++ LF :: str "a,b").
Proof.
  exact (parseCSV_ignores_blank_around_text
           [LF] (str "username,displayName" ++ LF :: str "a,b") [CR; LF; LF]
           eq_refl eq_refl).
Defined.

Lemma blank_app (a b : jsstring) : blank (a ++ b) = blank a && blank b.
Proof. apply forallb_app. Qed.

(** A blank first line is no header: the next line is. *)
Lemma parseCSV_blank_first_line (h : jsstring) (rest : list jsstring) :
  blank h = true -> rest <> [] ->
  parseCSV (join [LF] (h :: rest)) = parseCSV (join [LF] rest).
Proof.
  intros Hb Hr. destruct rest as [|r rest]; [congruence|].
  apply parseCSV_trim_eq.
  change (join [LF] (h :: r :: rest)) with (h ++ [LF] ++ join [LF] (r :: rest)).
  rewrite app_assoc. apply trim_app_blank_l.
  rewrite blank_app, Hb. reflexivity.
Qed.

Lemma row_records_trailing_blank (uI dI : Z) (ls : list (jsstring * jsstring)) :
  Forall (fun p => lacks LF (fst p) = true /\ lacks LF (snd p) = true /\
                   blank (snd p) = true) ls ->
  flat_map (row_records uI dI) (map (fun p => fst p ++ snd p) ls) =
  flat_map (row_records uI dI) (map fst ls).
Proof.
  induction 1 as [|q qs [_ [_ Hq]] _ IHq]; [reflexivity|].
  simpl. rewrite IHq, row_records_app_blank by assumption. reflexivity.
Qed.

Lemma parseCSV_trailing_blank_of_lines (ls : list (jsstring * jsstring)) :
  ls <> [] ->
  Forall (fun p => lacks LF (fst p) = true /\ lacks LF (snd p) = true /\
                   blank (snd p) = true) ls ->
  parseCSV (join [LF] (map (fun p => fst p ++ snd p) ls)) =
  parseCSV (join [LF] (map fst ls)).
Proof.
  induction ls as [|[h w] ls IH]; [congruence|]. intros _ H.
  inversion H as [|? ? [Hh [Hw Hbw]] Hls]; subst. simpl in Hh, Hw, Hbw.
  destruct ls as [|p ls].
  - simpl. apply parseCSV_trim_eq, trim_app_blank_r; assumption.
  - assert (Hne : p :: ls <> []) by discriminate.
    specialize (IH Hne Hls).
    assert (L1 : Forall (fun l => lacks LF l = true)
                   (map (fun p => fst p ++ snd p) (p :: ls))).
    { apply Forall_map. eapply Forall_impl; [|exact Hls].
      intros q [Hq1 [Hq2 _]]. cbv beta. rewrite lacks_app.
      apply andb_true_iff. split; assumption. }
    assert (L2 : Forall (fun l => lacks LF l = true) (map fst (p :: ls))).
    { apply Forall_map. eapply Forall_impl; [|exact Hls]. intros q [Hq1 _]. exact Hq1. }
    pose proof (fun uI dI => row_records_trailing_blank uI dI _ Hls) as R.
    change (map (fun p => fst p ++ snd p) ((h, w) :: p :: ls))
      with ((h ++ w) :: map (fun p => fst p ++ snd p) (p :: ls)).
    change (map fst ((h, w) :: p :: ls)) with (h :: map fst (p :: ls)).
    assert (N1 : map (fun p => fst p ++ snd p) (p :: ls) <> []) by discriminate.
    assert (N2 : map fst (p :: ls) <> []) by discriminate.
    set (A := map (fun p => fst p ++ snd p) (p :: ls)) in *.
    set (B := map fst (p :: ls)) in *.
    destruct (blank h) eqn:Hb.
    + transitivity (parseCSV (join [LF] A)).
      * apply parseCSV_blank_first_line; [|assumption].
        rewrite blank_app, Hb, Hbw. reflexivity.
      * rewrite IH. symmetry. apply parseCSV_blank_first_line; assumption.
    + assert (Hb' : blank (h ++ w) = false) by (rewrite blank_app, Hb; reflexivity).
      destruct ((findIndex isUsername (headerCells h) =? -1) ||
                (findIndex isDisplayName (headerCells h) =? -1)) eqn:Hres.
      * rewrite !parseCSV_lines_missing; try assumption; try reflexivity.
        -- constructor; assumption.
        -- constructor; [|assumption]. rewrite lacks_app, Hh, Hw. reflexivity.
        -- rewrite headerCells_app_blank_r by assumption. exact Hres.
      * rewrite !parseCSV_lines; try assumption.
        -- rewrite headerCells_app_blank_r by assumption. rewrite R. reflexivity.
        -- constructor; assumption.
        -- constructor; [|assumption]. rewrite lacks_app, Hh, Hw. reflexivity.
        -- rewrite headerCells_app_blank_r by assumption. exact Hres.
Qed.

Lemma crlf_lines (lines : list jsstring) :
  lines <> [] ->
  Forall (fun l => lacks LF l = true) lines ->
  exists ls : list (jsstring * jsstring),
    ls <> [] /\ map fst ls = lines /\
    join [LF] (map (fun p => fst p ++ snd p) ls) = join [CR; LF] lines /\
    Forall (fun p => lacks LF (fst p) = true /\ lacks LF (snd p) = true /\
                     blank (snd p) = true) ls.
Proof.
  induction lines as [|l lines IH]; [congruence|]. intros _ H.
  inversion H as [|? ? Hl Hrest]; subst.
  destruct lines as [|l2 lines].
  - exists [(l, [])]. simpl. rewrite app_nil_r.
    repeat split; try discriminate; auto.
  - destruct IH as [ls [Hne [Hfst [Hjoin Hall]]]]; [discriminate|assumption|].
    exists ((l, [CR]) :: ls). repeat split; try discriminate.
    + simpl. rewrite Hfst. reflexivity.
    + destruct ls as [|q ls]; [congruence|].
      change (join [LF] (map (fun p => fst p ++ snd p) ((l, [CR]) :: q :: ls)))
        with ((l ++ [CR]) ++ [LF] ++
              join [LF] (map (fun p => fst p ++ snd p) (q :: ls))).
      rewrite Hjoin.
      change (join [CR; LF] (l :: l2 :: lines))
        with (l ++ [CR; LF] ++ join [CR; LF] (l2 :: lines)).
      rewrite <- app_assoc. reflexivity.
    + constructor; [|assumption]. simpl. auto.
Qed.

(** Line ends: white space at the end of any line changes nothing, so a
    file with the line ends of Windows (carriage return, line feed) gives
    the outcome of the same file with line feeds alone. *)
Theorem parseCSV_ignores_carriage_returns :
  (forall ls : list (jsstring * jsstring),
      ls <> [] ->
      Forall (fun p => lacks LF (fst p) = true /\ lacks LF (snd p) = true /\
                       blank (snd p) = true) ls ->
      parseCSV (join [LF] (map (fun p => fst p ++ snd p) ls)) =
      parseCSV (join [LF] (map fst ls))) /\
  (forall lines : list jsstring,
      lines <> [] ->
      Forall (fun l => lacks LF l = true) lines ->
      parseCSV (join [CR; LF] lines) = parseCSV (join [LF] lines)).
Proof.
  split; [exact parseCSV_trailing_blank_of_lines|].
  intros lines Hne Hl.
  destruct (crlf_lines lines Hne Hl) as [ls [Hne' [Hfst [Hjoin Hall]]]].
  rewrite <- Hjoin, <- Hfst. apply parseCSV_trailing_blank_of_lines; assumption.
Qed.

Lemma parseCSV_ignores_carriage_returns_witness :
  parseCSV (str "username,displayName" ++ CR :: LF :: str "a,b" ++ CR :: LF :: str "c,d") =
    Ok [mkRecord (str "a") (str "b"); mkRecord (str "c") (str "d")].
Proof.
  assert (Hne : [str "username,displayName"; str "a,b"; str "c,d"] <> [])
    by discriminate.
  assert (Hl : Forall (fun l => lacks LF l = true)
                 [str "username,displayName"; str "a,b"; str "c,d"])
    by (repeat constructor).
  exact (proj2 parseCSV_ignores_carriage_returns _ Hne Hl).
Defined.

(** * The tokenizer on any line *)

Lemma tok_scan_conserves_length (line : jsstring) :
  forall st,
    (List.length (List.concat (result (tok_scan st line))) +
     List.length (result (tok_scan st line)) +
     List.length (current (tok_scan st line)) +
     count_occ ascii_dec line dquote =
     List.length (List.concat (result st)) + List.length (result st) +
     List.length (current st) + List.length line)%nat.
Proof.
  induction line as [|c line IH]; intros [r cur q]; [simpl; lia|].
  rewrite tok_scan_cons. specialize (IH (tok_step (mkTok r cur q) c)).
  destruct (Ascii.eqb c dquote) eqn:E.
  - apply Ascii.eqb_eq in E. subst c.
    rewrite count_occ_cons_eq by reflexivity.
    change (tok_step (mkTok r cur q) dquote) with (mkTok r cur (negb q)) in *.
    cbn [result current List.length] in *. lia.
  - rewrite count_occ_cons_neq by (apply Ascii.eqb_neq; exact E).
    unfold tok_step in IH |- *. rewrite E in IH |- *.
    destruct (Ascii.eqb c comma && negb (inQuotes (mkTok r cur q)));
      cbn [result current inQuotes List.length] in IH |- *;
      rewrite ?List.concat_app, ?length_app, ?app_nil_r in IH;
      simpl in IH; rewrite ?app_nil_r in IH; lia.
Qed.

Lemma filter_kept_snoc (l : jsstring) (c : ascii) :
  filter kept (l ++ [c]) = filter kept l ++ (if kept c then [c] else []).
Proof. rewrite filter_app. simpl. destruct (kept c); reflexivity. Qed.

Lemma tok_scan_conserves_content (line : jsstring) :
  forall st,
    filter kept (List.concat (result (tok_scan st line)) ++
                 current (tok_scan st line)) =
    filter kept (List.concat (result st) ++ current st) ++ filter kept line.
Proof.
  induction line as [|c line IH]; intros [r cur q];
    [simpl; rewrite app_nil_r; reflexivity|].
  rewrite tok_scan_cons, IH. unfold tok_step. cbn [result current inQuotes filter].
  destruct (Ascii.eqb c dquote) eqn:E.
  - assert (Kc : kept c = false) by (unfold kept; rewrite E, andb_false_r; reflexivity).
    rewrite Kc. reflexivity.
  - destruct (Ascii.eqb c comma) eqn:Ec.
    + assert (Kc : kept c = false) by (unfold kept; rewrite Ec; reflexivity).
      rewrite Kc. destruct q; cbn [andb negb result current].
      * rewrite app_assoc, filter_kept_snoc, Kc, app_nil_r. reflexivity.
      * rewrite List.concat_app. simpl. rewrite !app_nil_r. reflexivity.
    + assert (Kc : kept c = true) by (unfold kept; rewrite E, Ec; reflexivity).
      rewrite Kc. cbn [andb result current].
      rewrite app_assoc, filter_kept_snoc, Kc, <- app_assoc. reflexivity.
Qed.

(** The tokenizer loses nothing but quotes and the commas that end a
    field, and invents nothing: the code units of the line that are
    neither comma nor quote are those of the fields, in the same order,
    and the lengths add up. *)
Theorem parseCSVLine_conserves_the_line (line : jsstring) :
  filter kept (List.concat (parseCSVLine line)) = filter kept line /\
  (List.length (List.concat (parseCSVLine line)) + List.length (parseCSVLine line) +
   count_occ ascii_dec line dquote = List.length line + 1)%nat.
Proof.
  unfold parseCSVLine, tok_finish. split.
  - rewrite List.concat_app. simpl. rewrite app_nil_r.
    rewrite tok_scan_conserves_content. reflexivity.
  - pose proof (tok_scan_conserves_length line tok_init) as H.
    rewrite List.concat_app, !length_app. simpl in *.
    rewrite app_nil_r. lia.
Qed.

Lemma tok_step_dquote_twice (st : tok_state) :
  tok_step (tok_step st dquote) dquote = st.
Proof. destruct st as [r cur []]; reflexivity. Qed.

(** Two quotes in a row, the escaped quote of other CSV readers, are the
    same as none at all: no quote is put into the field. *)
Theorem parseCSVLine_drops_doubled_quotes (a b : jsstring) :
  parseCSVLine (a ++ dquote :: dquote :: b) = parseCSVLine (a ++ b).
Proof.
  unfold parseCSVLine. rewrite !tok_scan_app, !tok_scan_cons.
  rewrite tok_step_dquote_twice. reflexivity.
Qed.

Lemma tok_scan_inQuotes (line : jsstring) :
  forall st,
    inQuotes (tok_scan st line) =
    if Nat.even (count_occ ascii_dec line dquote)
    then inQuotes st else negb (inQuotes st).
Proof.
  induction line as [|c line IH]; intros [r cur q]; [reflexivity|].
  rewrite tok_scan_cons, IH.
  destruct (Ascii.eqb c dquote) eqn:E.
  - apply Ascii.eqb_eq in E. subst c.
    rewrite count_occ_cons_eq by reflexivity.
    rewrite Nat.even_succ, <- Nat.negb_even.
    change (tok_step (mkTok r cur q) dquote) with (mkTok r cur (negb q)).
    cbn [inQuotes].
    destruct (Nat.even (count_occ ascii_dec line dquote)); simpl;
      [reflexivity|apply negb_involutive].
  - rewrite count_occ_cons_neq by (apply Ascii.eqb_neq; exact E).
    unfold tok_step. rewrite E.
    destruct (Ascii.eqb c comma && negb (inQuotes (mkTok r cur q)));
      reflexivity.
Qed.

(** A quote that is never closed takes the rest of the line, commas
    included, into the field it opens: after a part with an even number
    of quotes, a quote and a rest without quote add the rest to the last
    field of the part. *)
Theorem parseCSVLine_unclosed_quote (a rest : jsstring) :
  Nat.even (count_occ ascii_dec a dquote) = true ->
  lacks dquote rest = true ->
  exists la x,
    parseCSVLine a = la ++ [x] /\
    parseCSVLine (a ++ dquote :: rest) = la ++ [x ++ rest].
Proof.
  intros He Hr. unfold parseCSVLine, tok_finish.
  pose proof (tok_scan_inQuotes a tok_init) as Hq. rewrite He in Hq.
  rewrite tok_scan_app, tok_scan_cons.
  destruct (tok_scan tok_init a) as [r cur q]. simpl in Hq. subst q.
  change (tok_step (mkTok r cur false) dquote) with (mkTok r cur true).
  rewrite tok_scan_quoted by assumption. simpl. eauto.
Qed.

Lemma parseCSVLine_unclosed_quote_witness :
  parseCSVLine (str "a,b" ++ dquote :: str "c,d,e") = [str "a"; str "bc,d,e"].
Proof.
  destruct (parseCSVLine_unclosed_quote (str "a,b") (str "c,d,e") eq_refl eq_refl)
    as [la [x [E1 E2]]].
  change (parseCSVLine (str "a,b")) with ([str "a"] ++ [str "b"]) in E1.
  apply app_inj_tail in E1. destruct E1 as [<- <-]. exact E2.
Defined.

(** * The two positions of the header *)

Lemma findIndex_found {A : Type} (p : A -> bool) (arr : list A) :
  findIndex p arr <> -1 ->
  exists x, nth_error arr (Z.to_nat (findIndex p arr)) = Some x /\ p x = true.
Proof.
  induction arr as [|a arr IH]; simpl; [congruence|].
  destruct (p a) eqn:Hp; [intros _; exists a; auto|].
  pose proof (findIndex_range p arr) as Hr.
  destruct (findIndex p arr =? -1) eqn:E; [congruence|]. intros _.
  apply Z.eqb_neq in E. destruct (IH E) as [x [Hx Hpx]].
  exists x. split; [|assumption].
  replace (Z.to_nat (findIndex p arr + 1)) with (S (Z.to_nat (findIndex p arr)))
    by lia.
  exact Hx.
Qed.

Lemma isUsername_not_isDisplayName (x : jsstring) :
  isUsername x = true -> isDisplayName x = false.
Proof. unfold isUsername. intros H. apply str_eqb_eq in H. subst x. reflexivity. Qed.

(** A header that resolves both columns resolves them to two different
    positions, so a data row needs at least two fields: a row of a single
    field gives no record. *)
Theorem resolved_columns_are_distinct (cells : list jsstring) (line : jsstring) :
  findIndex isUsername cells <> -1 ->
  findIndex isDisplayName cells <> -1 ->
  findIndex isUsername cells <> findIndex isDisplayName cells /\
  ((List.length (parseCSVLine line) <= 1)%nat ->
   row_records (findIndex isUsername cells) (findIndex isDisplayName cells) line = []).
Proof.
  intros Hu Hd.
  destruct (findIndex_found _ _ Hu) as [x [Hx Hpx]].
  destruct (findIndex_found _ _ Hd) as [y [Hy Hpy]].
  assert (Hne : findIndex isUsername cells <> findIndex isDisplayName cells).
  { intros E. rewrite E in Hx. rewrite Hx in Hy. injection Hy as <-.
    apply isUsername_not_isDisplayName in Hpx. congruence. }
  split; [exact Hne|]. intros Hlen.
  pose proof (findIndex_range isUsername cells) as Ru.
  pose proof (findIndex_range isDisplayName cells) as Rd.
  rewrite row_records_valid_row. unfold valid_row.
  replace (Z.of_nat (List.length (parseCSVLine line)) >?
           Z.max (findIndex isUsername cells) (findIndex isDisplayName cells))
    with false; [reflexivity|].
  symmetry. rewrite Z.gtb_ltb. apply Z.ltb_ge. lia.
Qed.

Lemma resolved_columns_are_distinct_witness :
  findIndex isUsername (headerCells (str "displayName,username")) <>
  findIndex isDisplayName (headerCells (str "displayName,username")) /\
  row_records 1 0 (str "only one field") = [].
Proof.
  assert (H1 : findIndex isUsername (headerCells (str "displayName,username")) <> -1)
    by discriminate.
  assert (H2 : findIndex isDisplayName (headerCells (str "displayName,username")) <> -1)
    by discriminate.
  destruct (resolved_columns_are_distinct
              (headerCells (str "displayName,username")) (str "only one field")
              H1 H2) as [Hne Hrow].
  split; [exact Hne|]. apply Hrow. vm_compute. reflexivity.
Defined.

(** * The output text *)

Lemma formatOutput_cons (r r2 : Record_) (rest : list Record_) :
  formatOutput (r :: r2 :: rest) =
  (formatRow r ++ [comma]) ++ LF :: formatOutput (r2 :: rest).
Proof.
  unfold formatOutput. simpl map.
  change (join (str "," ++ [LF]) (formatRow r :: formatRow r2 :: map formatRow rest))
    with (formatRow r ++ [comma; LF] ++
          join (str "," ++ [LF]) (formatRow r2 :: map formatRow rest)).
  rewrite <- app_assoc. reflexivity.
Qed.

Lemma lacks_LF_formatRow (r : Record_) :
  record_lacks LF r = true -> lacks LF (formatRow r) = true.
Proof.
  unfold record_lacks, formatRow. intros H.
  apply andb_true_iff in H. destruct H as [Hu Hd].
  rewrite lacks_app, Hu. simpl. exact Hd.
Qed.

Lemma output_lines_not_nil (data : list Record_) : output_lines data <> [].
Proof. destruct data as [|r [|r2 rest]]; discriminate. Qed.

Lemma output_lines_length (data : list Record_) :
  data <> [] -> List.length (output_lines data) = List.length data.
Proof.
  induction data as [|r data IH]; [congruence|]. intros _.
  destruct data as [|r2 rest]; [reflexivity|].
  change (output_lines (r :: r2 :: rest))
    with ((formatRow r ++ [comma]) :: output_lines (r2 :: rest)).
  cbn [List.length]. f_equal. apply IH. discriminate.
Qed.

Lemma split_formatOutput (data : list Record_) :
  Forall (fun r => record_lacks LF r = true) data ->
  split LF (formatOutput data) = output_lines data.
Proof.
  induction 1 as [|r data Hr Hdata IH]; [reflexivity|].
  destruct data as [|r2 rest].
  - apply split_lacks. apply lacks_LF_formatRow; assumption.
  - rewrite formatOutput_cons.
    rewrite (split_app LF _ _ [] (formatRow r ++ [comma]) []
               (output_lines (r2 :: rest))).
    + simpl. rewrite app_nil_r. reflexivity.
    + apply split_lacks. rewrite lacks_app, lacks_LF_formatRow by assumption.
      reflexivity.
    + rewrite split_cons_sep, IH. reflexivity.
Qed.

Lemma tok_step_lacks (c : ascii) (st : tok_state) (x : ascii) :
  Ascii.eqb x c = false ->
  Forall (fun f => lacks c f = true) (result st) ->
  lacks c (current st) = true ->
  Forall (fun f => lacks c f = true) (result (tok_step st x)) /\
  lacks c (current (tok_step st x)) = true.
Proof.
  intros Hx Hr Hc. unfold tok_step.
  destruct (Ascii.eqb x dquote); simpl; [auto|].
  destruct (Ascii.eqb x comma && negb (inQuotes st)); simpl.
  - split; [|reflexivity]. apply Forall_app. auto.
  - split; [assumption|]. rewrite lacks_app, Hc. simpl. rewrite Hx. reflexivity.
Qed.

Lemma tok_scan_lacks (c : ascii) (line : jsstring) :
  forall st,
    lacks c line = true ->
    Forall (fun f => lacks c f = true) (result st) ->
    lacks c (current st) = true ->
    Forall (fun f => lacks c f = true) (result (tok_scan st line)) /\
    lacks c (current (tok_scan st line)) = true.
Proof.
  induction line as [|x line IH]; intros st Hl Hr Hc; [simpl; auto|].
  simpl in Hl. apply andb_true_iff in Hl. destruct Hl as [Hx Hl].
  apply negb_true_iff in Hx.
  rewrite tok_scan_cons. apply IH; [assumption| |];
    apply (tok_step_lacks c st x); assumption.
Qed.

(** The fields hold code units of the line only. *)
Lemma parseCSVLine_lacks (c : ascii) (line : jsstring) :
  lacks c line = true ->
  Forall (fun f => lacks c f = true) (parseCSVLine line).
Proof.
  intros Hl. unfold parseCSVLine, tok_finish.
  destruct (tok_scan_lacks c line tok_init Hl) as [Hr Hc];
    [constructor|reflexivity|].
  apply Forall_app. auto.
Qed.

Lemma field_lacks (c : ascii) (k : Z) (line : jsstring) :
  lacks c line = true -> lacks c (field k line) = true.
Proof.
  intros Hl. unfold field, trim. apply lacks_trimEnd, lacks_trimStart.
  destruct (nth_in_or_default (Z.to_nat k) (parseCSVLine line) []) as [H | ->];
    [|reflexivity].
  pose proof (parseCSVLine_lacks c line Hl) as HF.
  rewrite Forall_forall in HF. auto.
Qed.

Lemma parseCSV_records_valid (text : jsstring) (data : list Record_) :
  parseCSV text = Ok data ->
  Forall (fun r => username r <> [] /\ displayName r <> [] /\
                   record_lacks LF r = true) data.
Proof.
  intros H. destruct (parseCSV_Ok_rows _ _ H) as [uI [dI ->]].
  apply Forall_forall. intros r Hin.
  apply in_flat_map in Hin. destruct Hin as [line [Hline Hr]].
  rewrite row_records_valid_row in Hr.
  destruct (valid_row uI dI line) eqn:V; [|contradiction].
  destruct Hr as [<- | []]. simpl.
  unfold valid_row in V.
  apply andb_true_iff in V. destruct V as [V Hd].
  apply andb_true_iff in V. destruct V as [_ Hu].
  apply truthy_true in Hu, Hd.
  assert (Hl : lacks LF line = true).
  { pose proof (split_pieces_lack_sep LF (trim text)) as HF.
    rewrite split_hd_tl in HF. inversion HF as [|? ? _ Ht]; subst.
    rewrite Forall_forall in Ht. auto. }
  repeat split; try assumption.
  unfold record_lacks. simpl. rewrite !field_lacks by assumption. reflexivity.
Qed.

(** The text [formatOutput] makes of the records [parseCSV] returns has
    one line per record: the row as [username@displayName], with a comma
    behind every row but the last. *)
Theorem formatOutput_has_one_line_per_record
    (text : jsstring) (data : list Record_) :
  parseCSV text = Ok data -> data <> [] ->
  split LF (formatOutput data) = output_lines data /\
  List.length (split LF (formatOutput data)) = List.length data.
Proof.
  intros H Hne.
  assert (E : split LF (formatOutput data) = output_lines data).
  { apply split_formatOutput. eapply Forall_impl; [|apply (parseCSV_records_valid _ _ H)].
    intros r [_ [_ Hr]]. exact Hr. }
  split; [exact E|]. rewrite E. apply output_lines_length; assumption.
Qed.

Lemma formatOutput_has_one_line_per_record_witness :
  split LF (formatOutput [mkRecord (str "a") (str "A, B"); mkRecord (str "c") (str "C")]) =
    [str "a@A, B,"; str "c@C"].
Proof.
  assert (Hne : [mkRecord (str "a") (str "A, B"); mkRecord (str "c") (str "C")] <> [])
    by discriminate.
  assert (H : parseCSV (join [LF] [str "username,displayName";
                                   str "a," ++ dquote :: str "A, B" ++ [dquote];
                                   str "c,C"]) =
              Ok [mkRecord (str "a") (str "A, B"); mkRecord (str "c") (str "C")])
    by reflexivity.
  exact (proj1 (formatOutput_has_one_line_per_record _ _ H Hne)).
Defined.

Lemma app_sep_inj (c : ascii) (a1 b1 a2 b2 : jsstring) :
  lacks c a1 = true -> lacks c a2 = true ->
  a1 ++ c :: b1 = a2 ++ c :: b2 -> a1 = a2 /\ b1 = b2.
Proof.
  intros H1 H2 E.
  assert (S1 : split c (a1 ++ c :: b1) = a1 :: split c b1).
  { rewrite (split_app c a1 (c :: b1) [] a1 [] (split c b1)).
    - simpl. rewrite app_nil_r. reflexivity.
    - apply split_lacks; assumption.
    - apply split_cons_sep. }
  assert (S2 : split c (a2 ++ c :: b2) = a2 :: split c b2).
  { rewrite (split_app c a2 (c :: b2) [] a2 [] (split c b2)).
    - simpl. rewrite app_nil_r. reflexivity.
    - apply split_lacks; assumption.
    - apply split_cons_sep. }
  rewrite E, S2 in S1. injection S1 as Ea _. subst a2.
  apply app_inv_head in E. injection E as ->. auto.
Qed.

Lemma formatRow_inj (r1 r2 : Record_) :
  lacks at_sign (username r1) = true -> lacks at_sign (username r2) = true ->
  formatRow r1 = formatRow r2 -> r1 = r2.
Proof.
  destruct r1 as [u1 d1], r2 as [u2 d2]. unfold formatRow. simpl.
  intros H1 H2 E. apply app_sep_inj in E; try assumption.
  destruct E as [-> ->]. reflexivity.
Qed.

Lemma output_lines_inj (d1 : list Record_) :
  forall d2,
    Forall (fun r => lacks at_sign (username r) = true) d1 ->
    Forall (fun r => lacks at_sign (username r) = true) d2 ->
    output_lines d1 = output_lines d2 -> d1 = d2.
Proof.
  induction d1 as [|r1 d1 IH]; intros d2 H1 H2 E.
  - destruct d2 as [|r2 [|r2' rest2]]; [reflexivity| |].
    + simpl in E. injection E as E. destruct r2 as [u d].
      unfold formatRow in E. simpl in E. destruct u; discriminate.
    + change (output_lines (r2 :: r2' :: rest2))
        with ((formatRow r2 ++ [comma]) :: output_lines (r2' :: rest2)) in E.
      injection E as _ E. symmetry in E.
      exact (False_ind _ (output_lines_not_nil (r2' :: rest2) E)).
  - inversion H1 as [|? ? Hr1 Hd1]; subst.
    destruct d2 as [|r2 d2].
    + destruct d1 as [|r1' rest1].
      * simpl in E. injection E as E. destruct r1 as [u d].
        unfold formatRow in E. simpl in E. destruct u; discriminate.
      * change (output_lines (r1 :: r1' :: rest1))
          with ((formatRow r1 ++ [comma]) :: output_lines (r1' :: rest1)) in E.
        injection E as _ E.
        exact (False_ind _ (output_lines_not_nil (r1' :: rest1) E)).
    + inversion H2 as [|? ? Hr2 Hd2]; subst.
      destruct d1 as [|r1' rest1], d2 as [|r2' rest2].
      * simpl in E. injection E as E.
        apply formatRow_inj in E; try assumption. subst. reflexivity.
      * change (output_lines (r2 :: r2' :: rest2))
          with ((formatRow r2 ++ [comma]) :: output_lines (r2' :: rest2)) in E.
        injection E as _ E. symmetry in E.
        exact (False_ind _ (output_lines_not_nil (r2' :: rest2) E)).
      * change (output_lines (r1 :: r1' :: rest1))
          with ((formatRow r1 ++ [comma]) :: output_lines (r1' :: rest1)) in E.
        injection E as _ E.
        exact (False_ind _ (output_lines_not_nil (r1' :: rest1) E)).
      * change (output_lines (r1 :: r1' :: rest1))
          with ((formatRow r1 ++ [comma]) :: output_lines (r1' :: rest1)) in E.
        change (output_lines (r2 :: r2' :: rest2))
          with ((formatRow r2 ++ [comma]) :: output_lines (r2' :: rest2)) in E.
        injection E as Eh Et.
        apply app_inj_tail in Eh. destruct Eh as [Eh _].
        apply formatRow_inj in Eh; try assumption. subst r2.
        f_equal. apply IH; assumption.
Qed.

(** The output text tells the records apart when no value holds a line
    feed and no username holds the at sign: two lists of such records
    with the same text are the same list.  Without the condition on the
    username it does not: the usernames [a@b] and [a] can give one text. *)
Theorem formatOutput_is_injective_without_at_sign :
  (forall d1 d2 : list Record_,
      Forall (fun r => record_lacks LF r = true /\
                       lacks at_sign (username r) = true) d1 ->
      Forall (fun r => record_lacks LF r = true /\
                       lacks at_sign (username r) = true) d2 ->
      formatOutput d1 = formatOutput d2 -> d1 = d2) /\
  formatOutput [mkRecord (str "a@b") (str "c")] =
  formatOutput [mkRecord (str "a") (str "b@c")].
Proof.
  split; [|reflexivity].
  intros d1 d2 H1 H2 E.
  assert (L1 : Forall (fun r => record_lacks LF r = true) d1)
    by (eapply Forall_impl; [|exact H1]; intros r [Hr _]; exact Hr).
  assert (L2 : Forall (fun r => record_lacks LF r = true) d2)
    by (eapply Forall_impl; [|exact H2]; intros r [Hr _]; exact Hr).
  apply output_lines_inj.
  - eapply Forall_impl; [|exact H1]. intros r [_ Hr]. exact Hr.
  - eapply Forall_impl; [|exact H2]. intros r [_ Hr]. exact Hr.
  - rewrite <- !split_formatOutput by assumption. rewrite E. reflexivity.
Qed.

Lemma formatOutput_is_injective_witness :
  [mkRecord (str "a") (str "b@c,"); mkRecord (str "d") (str "e")] =
  [mkRecord (str "a") (str "b@c,"); mkRecord (str "d") (str "e")].
Proof.
  assert (H : Forall (fun r => record_lacks LF r = true /\
                               lacks at_sign (username r) = true)
                [mkRecord (str "a") (str "b@c,"); mkRecord (str "d") (str "e")])
    by (repeat constructor).
  exact (proj1 formatOutput_is_injective_without_at_sign _ _ H H eq_refl).
Defined.

(** * The component state *)

Lemma formatOutput_nil_iff (data : list Record_) :
  formatOutput data = [] <-> data = [].
Proof.
  split; [|intros ->; reflexivity].
  destruct data as [|[u d] [|r2 rest]]; [reflexivity| |].
  - unfold formatOutput, formatRow. simpl. destruct u; discriminate.
  - rewrite formatOutput_cons. unfold formatRow. simpl. destruct u; discriminate.
Qed.

(** What every handler keeps true of the state. *)
Lemma ui_step_invariant (w : world) (e : event) :
  outputText (ui w) = formatOutput (parsedData (ui w)) /\
  Forall (fun r => username r <> [] /\ displayName r <> [] /\
                   record_lacks LF r = true) (parsedData (ui w)) ->
  outputText (ui (ui_step w e)) = formatOutput (parsedData (ui (ui_step w e))) /\
  Forall (fun r => username r <> [] /\ displayName r <> [] /\
                   record_lacks LF r = true) (parsedData (ui (ui_step w e))).
Proof.
  intros [Ho Hv].
  destruct e as [f | f | | | text | | written | | | ]; simpl;
    try (split; assumption); try (split; [reflexivity|constructor]).
  - unfold handleInputChange, handleFileSelect.
    destruct f as [name|]; [|split; assumption].
    destruct (negb (endsWith name (str ".csv"))); split; assumption.
  - unfold handleDrop, handleFileSelect.
    destruct f as [name|]; [|split; assumption].
    destruct (negb (endsWith name (str ".csv"))); split; assumption.
  - unfold onload. destruct (parseCSV text) as [[|r data] | message] eqn:E; simpl.
    + split; [reflexivity|constructor].
    + split; [reflexivity|]. apply (parseCSV_records_valid text). exact E.
    + split; [reflexivity|constructor].
  - unfold handleCopy. destruct written; split; assumption.
Qed.

Lemma ui_run_invariant (events : list event) :
  forall w,
    outputText (ui w) = formatOutput (parsedData (ui w)) /\
    Forall (fun r => username r <> [] /\ displayName r <> [] /\
                     record_lacks LF r = true) (parsedData (ui w)) ->
    outputText (ui (ui_run w events)) =
      formatOutput (parsedData (ui (ui_run w events))) /\
    Forall (fun r => username r <> [] /\ displayName r <> [] /\
                     record_lacks LF r = true)
           (parsedData (ui (ui_run w events))).
Proof.
  induction events as [|e events IH]; intros w H; [exact H|].
  apply IH, ui_step_invariant, H.
Qed.

(** Whatever happens to a mounted component, in whatever order (files
    chosen or dropped, reader callbacks with any text, copies, timers,
    resets), the output text is the formatted text of the records on
    screen, it is empty exactly when there are no records, and every
    record has a username and a displayName that are not empty and hold
    no line feed. *)
Theorem output_text_always_matches_the_records
    (clipboard0 : jsstring) (events : list event) :
  outputText (ui (ui_run (mkWorld initial_state clipboard0) events)) =
    formatOutput (parsedData (ui (ui_run (mkWorld initial_state clipboard0) events))) /\
  (outputText (ui (ui_run (mkWorld initial_state clipboard0) events)) = [] <->
   parsedData (ui (ui_run (mkWorld initial_state clipboard0) events)) = []) /\
  Forall (fun r => username r <> [] /\ displayName r <> [] /\
                   record_lacks LF r = true)
         (parsedData (ui (ui_run (mkWorld initial_state clipboard0) events))).
Proof.
  destruct (ui_run_invariant events (mkWorld initial_state clipboard0))
    as [Ho Hv]; [split; [reflexivity|constructor]|].
  split; [exact Ho|split; [|exact Hv]].
  rewrite Ho. apply formatOutput_nil_iff.
Qed.

(** A copy that succeeds puts on the clipboard the formatted text of the
    records on screen at that moment, and changes neither the records nor
    the output text, the error or the file; a copy that fails changes
    nothing at all. *)
Theorem copy_writes_the_formatted_records
    (clipboard0 : jsstring) (events : list event) :
  clipboard (ui_step (ui_run (mkWorld initial_state clipboard0) events)
                     (CopyClicked true)) =
    formatOutput (parsedData (ui (ui_run (mkWorld initial_state clipboard0) events))) /\
  parsedData (ui (ui_step (ui_run (mkWorld initial_state clipboard0) events)
                          (CopyClicked true))) =
    parsedData (ui (ui_run (mkWorld initial_state clipboard0) events)) /\
  outputText (ui (ui_step (ui_run (mkWorld initial_state clipboard0) events)
                          (CopyClicked true))) =
    outputText (ui (ui_run (mkWorld initial_state clipboard0) events)) /\
  error (ui (ui_step (ui_run (mkWorld initial_state clipboard0) events)
                     (CopyClicked true))) =
    error (ui (ui_run (mkWorld initial_state clipboard0) events)) /\
  file (ui (ui_step (ui_run (mkWorld initial_state clipboard0) events)
                    (CopyClicked true))) =
    file (ui (ui_run (mkWorld initial_state clipboard0) events)) /\
  ui_step (ui_run (mkWorld initial_state clipboard0) events) (CopyClicked false) =
    ui_run (mkWorld initial_state clipboard0) events.
Proof.
  destruct (ui_run_invariant events (mkWorld initial_state clipboard0))
    as [Ho _]; [split; [reflexivity|constructor]|].
  simpl. rewrite Ho. repeat split; reflexivity.
Qed.

(** * Choosing a file *)

Lemma startsWith_iff (t s : jsstring) :
  startsWith t s = true <-> exists rest, s = t ++ rest.
Proof.
  revert s; induction t as [|x t IH]; intros s; simpl.
  - split; [intros _; exists s; reflexivity|reflexivity].
  - destruct s as [|y s].
    + split; [discriminate|intros [rest E]; discriminate].
    + rewrite andb_true_iff, Ascii.eqb_eq, IH. split.
      * intros [-> [rest ->]]. exists rest. reflexivity.
      * intros [rest E]. injection E as -> ->. split; [reflexivity|eauto].
Qed.

Lemma endsWith_iff (s t : jsstring) :
  endsWith s t = true <-> exists base, s = base ++ t.
Proof.
  unfold endsWith. rewrite startsWith_iff. split.
  - intros [rest E]. exists (rev rest).
    rewrite <- (rev_involutive s), E, rev_app_distr, rev_involutive. reflexivity.
  - intros [base ->]. exists (rev base). apply rev_app_distr.
Qed.

(** A chosen or dropped file is read exactly when its name ends in
    [.csv], in lower case.  Choosing a file never touches the records and
    the output text on screen: a file that is taken replaces the file and
    clears the error, and a file that is refused only sets the error,
    next to the file and the records of before.  A drop does the same and
    ends the dragging: its state is that of choosing the file, with the
    dragging flag off. *)
Theorem file_is_read_only_with_csv_name
    (st : ui_state) (selectedFile : option jsstring) :
  (snd (handleFileSelect st selectedFile) = true <->
   exists base, selectedFile = Some (base ++ str ".csv")) /\
  parsedData (fst (handleFileSelect st selectedFile)) = parsedData st /\
  outputText (fst (handleFileSelect st selectedFile)) = outputText st /\
  (snd (handleFileSelect st selectedFile) = true ->
   file (fst (handleFileSelect st selectedFile)) = selectedFile /\
   error (fst (handleFileSelect st selectedFile)) = []) /\
  (snd (handleFileSelect st selectedFile) = false ->
   file (fst (handleFileSelect st selectedFile)) = file st /\
   (selectedFile <> None ->
    error (fst (handleFileSelect st selectedFile)) = msg_not_csv) /\
   (selectedFile = None -> handleFileSelect st selectedFile = (st, false))) /\
  snd (handleDrop st selectedFile) = snd (handleFileSelect st selectedFile) /\
  isDragging (fst (handleDrop st selectedFile)) = false /\
  handleInputChange st selectedFile = handleFileSelect st selectedFile /\
  fst (handleDrop st selectedFile) =
    setIsDragging (fst (handleFileSelect st selectedFile)) false /\
  parsedData (fst (handleDrop st selectedFile)) = parsedData st /\
  outputText (fst (handleDrop st selectedFile)) = outputText st /\
  file (fst (handleDrop st selectedFile)) =
    file (fst (handleFileSelect st selectedFile)) /\
  error (fst (handleDrop st selectedFile)) =
    error (fst (handleFileSelect st selectedFile)) /\
  copied (fst (handleDrop st selectedFile)) = copied st /\
  showToast (fst (handleDrop st selectedFile)) = showToast st.
Proof.
  unfold handleDrop, handleInputChange, handleFileSelect.
  destruct selectedFile as [name|].
  - destruct (endsWith name (str ".csv")) eqn:E; simpl.
    + repeat split; try reflexivity; try discriminate.
      intros _. apply endsWith_iff in E. destruct E as [base ->]. eauto.
    + repeat split; try reflexivity; try discriminate; try congruence.
      intros [base H]. injection H as ->.
      apply not_true_iff_false in E. exfalso. apply E.
      apply endsWith_iff. exists base. reflexivity.
  - simpl. repeat split; try reflexivity; try discriminate; try congruence.
    intros [base H]. discriminate.
Qed.

Lemma parseCSV_Throw_message (text message : jsstring) :
  parseCSV text = Throw message -> message = msg_missing_columns.
Proof.
  unfold parseCSV. rewrite split_trim_cons.
  destruct ((_ =? -1) || (_ =? -1)); [|discriminate].
  intros H. injection H as <-. reflexivity.
Qed.

(** When the reader has read a file, whatever its text and whatever was
    on screen before, the loader ends in one of two ways: with records,
    their formatted text and no error, or with no record, no output text
    and one of two messages, the one for missing columns or the one for
    no valid row.  The message for an empty file is never shown. *)
Theorem onload_shows_records_or_an_error (st : ui_state) (text : jsstring) :
  (parsedData (onload st text) <> [] /\
   parseCSV text = Ok (parsedData (onload st text)) /\
   outputText (onload st text) = formatOutput (parsedData (onload st text)) /\
   error (onload st text) = []) \/
  (parsedData (onload st text) = [] /\
   outputText (onload st text) = [] /\
   (error (onload st text) = msg_missing_columns \/
    error (onload st text) = msg_no_rows)).
Proof.
  unfold onload. destruct (parseCSV text) as [[|r data] | message] eqn:E; simpl.
  - right. auto.
  - left. repeat split; try reflexivity. discriminate.
  - right. apply parseCSV_Throw_message in E. auto.
Qed.
